(** * notebook_to_demo: the notebook-to-gallery-script converter

    A shallow embedding of [notebook_converter/notebook_to_demo.py] and the
    properties of it that the design document states.

    - Python [str] values are sequences of Unicode code points ([list N]).
    - [re.sub] is a small backtracking engine for the pattern constructs the
      script uses, with the leftmost, greedy, non-overlapping scan of [re].
    - [pathlib] paths are the POSIX flavour; the file system is a finite map
      from resolved absolute paths to files and directories.
    - Every function that touches the file system or can raise runs in a
      state-and-exception monad: the file system is kept when an exception
      is raised, as in Python. *)

From Stdlib Require Import List NArith Ascii String Bool Arith Lia DecimalString.
From stdpp Require Import gmap.
Import ListNotations.

Local Open Scope N_scope.

(** ** Strings *)

Definition char := N.
Definition str := list char.

(** An ASCII literal of the script, as code points. *)
Definition py (x : string) : str := map N_of_ascii (list_ascii_of_string x).

Definition nl : char := 10.
Definition space : char := 32.

(** [str.isspace] on one code point: the white space that [strip],
    [rstrip] and [lstrip] remove. *)
Definition is_space (c : char) : bool :=
  ((9 <=? c) && (c <=? 13)) || ((28 <=? c) && (c <=? 32))
  || (c =? 133) || (c =? 160) || (c =? 5760)
  || ((8192 <=? c) && (c <=? 8202))
  || (c =? 8232) || (c =? 8233) || (c =? 8239) || (c =? 8287) || (c =? 12288).

Fixpoint drop_while (p : char -> bool) (s : str) : str :=
  match s with
  | c :: s' => if p c then drop_while p s' else s
  | [] => []
  end.

Definition lstrip (s : str) : str := drop_while is_space s.
Definition rstrip (s : str) : str := rev (drop_while is_space (rev s)).
Definition strip (s : str) : str := lstrip (rstrip s).

(** [sep.join(l)] *)
Fixpoint join (sep : str) (l : list str) : str :=
  match l with
  | [] => []
  | x :: l' => match l' with [] => x | _ :: _ => x ++ sep ++ join sep l' end
  end.

(** [s.split(sep)] for a one-character separator; never the empty list. *)
Fixpoint split_on (sep : char) (s : str) : list str :=
  match s with
  | [] => [[]]
  | c :: s' =>
      if c =? sep then [] :: split_on sep s'
      else match split_on sep s' with
           | l :: ls => (c :: l) :: ls
           | [] => [[c]]
           end
  end.

(** [s.split("\n")] *)
Definition split_lines (s : str) : list str := split_on nl s.

(** [a == b] on strings. *)
Fixpoint eqb_str (a b : str) : bool :=
  match a, b with
  | [], [] => true
  | x :: a', y :: b' => (x =? y) && eqb_str a' b'
  | _, _ => false
  end.

(** [s.startswith(p)] *)
Fixpoint startswith (p s : str) : bool :=
  match p, s with
  | [], _ => true
  | a :: p', b :: s' => (a =? b) && startswith p' s'
  | _ :: _, [] => false
  end.

(** [sub in s] *)
Fixpoint str_in (sub s : str) : bool :=
  startswith sub s || match s with [] => false | _ :: s' => str_in sub s' end.

(** [str(n)] for a non-negative integer. *)
Definition str_of_nat (n : nat) : str := py (NilZero.string_of_uint (Nat.to_uint n)).

(** The longest prefix of [s] whose characters satisfy [p], and the rest. *)
Fixpoint span (p : char -> bool) (s : str) : str * str :=
  match s with
  | c :: s' => if p c then let (w, r) := span p s' in (c :: w, r) else ([], s)
  | [] => ([], [])
  end.

(** A left-to-right scan that replaces non-overlapping occurrences: the loop
    shared by [str.replace] and [re.sub].  [find adv s] looks for an
    occurrence at the head of [s] and returns the replacement text, whether
    the occurrence was empty, and what follows it; [adv] is set when the
    previous occurrence was empty and ended here, in which case another empty
    occurrence at the same place is not accepted. *)
Fixpoint scan (fuel : nat) (find : bool -> str -> option (str * bool * str))
    (adv : bool) (s : str) : str :=
  match fuel with
  | O => []
  | S fuel' =>
      match find adv s with
      | Some (out, true, _) => out ++ scan fuel' find true s
      | Some (out, false, rest) => out ++ scan fuel' find false rest
      | None =>
          match s with
          | [] => []
          | c :: s' => c :: scan fuel' find false s'
          end
      end
  end.

Definition scan_fuel (s : str) : nat := (2 * List.length s + 2)%nat.

(** [s.replace(old, new)] *)
Definition replace (old new s : str) : str :=
  scan (scan_fuel s)
    (fun adv t =>
       if startswith old t then
         match old with
         | [] => if adv then None else Some (new, true, t)
         | _ :: _ => Some (new, false, skipn (List.length old) t)
         end
       else None)
    false s.

(** ** Regular expressions

    The constructs that occur in the patterns of the script: literal text, a
    greedy [+] over a one-character class, concatenation and numbered
    capture groups. *)

Inductive regex :=
| Lit (l : str)
| Plus (p : char -> bool)
| Cat (r1 r2 : regex)
| Grp (n : nat) (r : regex).

Definition groups := list (nat * str).

(** [C+] at the head of [s]: as many characters of the class as possible,
    giving characters back one at a time while the continuation [k] fails.
    [acc] is the text taken so far. *)
Fixpoint plus_greedy {R} (p : char -> bool) (s acc : str)
    (k : str -> str -> option R) : option R :=
  match s with
  | c :: s' =>
      if p c then
        match plus_greedy p s' (acc ++ [c]) k with
        | Some x => Some x
        | None => k (acc ++ [c]) s'
        end
      else None
  | [] => None
  end.

(** Backtracking match of [r] at the head of [s]; the continuation receives
    the matched text, the rest of the input and the groups bound so far. *)
Fixpoint match_re {R} (r : regex) (s : str) (gs : groups)
    (k : str -> str -> groups -> option R) : option R :=
  match r with
  | Lit l => if startswith l s then k l (skipn (List.length l) s) gs else None
  | Plus p => plus_greedy p s [] (fun m rest => k m rest gs)
  | Cat r1 r2 =>
      match_re r1 s gs (fun m1 s1 gs1 =>
        match_re r2 s1 gs1 (fun m2 s2 gs2 => k (m1 ++ m2) s2 gs2))
  | Grp n r' => match_re r' s gs (fun m s1 gs1 => k m s1 ((n, m) :: gs1))
  end.

Definition is_nil {A} (l : list A) : bool :=
  match l with [] => true | _ :: _ => false end.

(** The first match of [r] at the head of [s], in the order the engine tries
    them; with [adv] an empty match is rejected and the engine backtracks. *)
Definition match_at (r : regex) (adv : bool) (s : str) : option (groups * str * str) :=
  match_re r s [] (fun m rest gs =>
    if adv && is_nil m then None else Some (gs, m, rest)).

(** A replacement template: literal text and group references [\n]. *)
Inductive titem :=
| TLit (l : str)
| TGrp (n : nat).

Fixpoint group (gs : groups) (n : nat) : str :=
  match gs with
  | [] => []
  | (i, m) :: gs' => if Nat.eqb i n then m else group gs' n
  end.

Definition expand (tpl : list titem) (gs : groups) : str :=
  flat_map (fun t => match t with TLit l => l | TGrp n => group gs n end) tpl.

(** [re.sub(r, tpl, s)] *)
Definition re_sub (r : regex) (tpl : list titem) (s : str) : str :=
  scan (scan_fuel s)
    (fun adv t =>
       match match_at r adv t with
       | Some (gs, m, rest) => Some (expand tpl gs, is_nil m, rest)
       | None => None
       end)
    false s.

(** Character classes. *)

Definition in_range (lo hi c : char) : bool := (lo <=? c) && (c <=? hi).

(** [.]: anything but a newline. *)
Definition dot (c : char) : bool := negb (c =? nl).

Section PostProcessor.

(** [str.isalnum] on the code points above ASCII comes from the Unicode
    character database, which is not part of the script. *)
Variable unicode_isalnum : char -> bool.

(** [\w] on [str] patterns: alphanumeric or underscore. *)
Definition word (c : char) : bool :=
  if c <? 128 then
    in_range 48 57 c || in_range 65 90 c || in_range 97 122 c || (c =? 95)
  else unicode_isalnum c.

(** [re.sub(r"\.\. container:: (\w+)", r".. \1::", rst)] *)
Definition update_sphinx_tags (rst : str) : str :=
  re_sub (Cat (Lit (py ".. container:: ")) (Grp 1 (Plus word)))
         [TLit (py ".. "); TGrp 1; TLit (py "::")] rst.

(** [re.sub(r"(\w+) (:property=)", r"\1\n   \2", rst)] *)
Definition add_property_newline (rst : str) : str :=
  re_sub (Cat (Grp 1 (Plus word)) (Cat (Lit (py " ")) (Grp 2 (Lit (py ":property=")))))
         [TGrp 1; TLit (nl :: py "   "); TGrp 2] rst.

(** [re.sub(r" {3}:alt: (.+)\n\n {3}(.+)", r"   :alt: \1", rst)] *)
Definition fix_image_alt_tag_as_text (rst : str) : str :=
  re_sub (Cat (Lit (py "   :alt: "))
           (Cat (Grp 1 (Plus dot))
             (Cat (Lit ([nl; nl] ++ py "   ")) (Grp 2 (Plus dot)))))
         [TLit (py "   :alt: "); TGrp 1] rst.

(** The three rewrites in the order [convert_notebook_to_python] applies
    them to the converted source of a markdown cell. *)
Definition post_process (rst : str) : str :=
  fix_image_alt_tag_as_text (add_property_newline (update_sphinx_tags rst)).

End PostProcessor.

Local Close Scope N_scope.

(** ** Exceptions, the file system and the effect monad *)

Inductive exn :=
| AssertionError
| KeyError (key : string)
| TypeError
| BinasciiError
| FileNotFoundError
| NotADirectoryError
| IsADirectoryError
| FileExistsError
| SameFileError.

Inductive content :=
| Bytes (b : list Byte.byte)
| Text (t : str).

Inductive node :=
| File (c : content)
| Dir.

(** Entries are keyed by their absolute location, a list of names below the
    root; the root itself is always a directory.  There are no symbolic
    links and no permissions. *)
Abbreviation filesystem := (gmap (list str) node).

Definition M (A : Type) : Type := filesystem -> filesystem * (exn + A).

Definition ret {A} (a : A) : M A := fun fs => (fs, inr a).
Definition raise {A} (e : exn) : M A := fun fs => (fs, inl e).
Definition bind {A B} (m : M A) (f : A -> M B) : M B :=
  fun fs =>
    match m fs with
    | (fs', inr a) => f a fs'
    | (fs', inl e) => (fs', inl e)
    end.

Notation "'let*' x ':=' m 'in' k" := (bind m (fun x => k))
  (at level 10, x name, m at level 100, k at level 200).
Notation "'do' m 'then' k" := (bind m (fun _ => k))
  (at level 10, m at level 100, k at level 200).

(** [for i, x in enumerate(l): st = body(i, x, st)], counting from [i]. *)
Fixpoint for_each {A St} (body : nat -> A -> St -> M St) (i : nat) (l : list A)
    (st : St) : M St :=
  match l with
  | [] => ret st
  | x :: l' => let* st' := body i x st in for_each body (S i) l' st'
  end.

(** ** Paths ([pathlib], POSIX flavour) *)

Inductive anchor := Relative | Root | Root2.

Record Path := { anchor_of : anchor; parts : list str }.

Definition slash : char := 47%N.
Definition period : char := 46%N.

(** [Path(s)]: empty and [.] components are dropped, [..] is kept; exactly
    two leading slashes are a root of their own. *)
Definition parse_path (s : str) : Path :=
  {| anchor_of :=
       match List.length s - List.length (drop_while (N.eqb slash) s) with
       | 0 => Relative
       | 2 => Root2
       | _ => Root
       end;
     parts :=
       filter (fun p => negb (is_nil p) && negb (eqb_str p [period]))
              (split_on slash s) |}.

Definition is_absolute (p : Path) : bool :=
  match anchor_of p with Relative => false | _ => true end.

(** [a / b] *)
Definition joinpath (a b : Path) : Path :=
  if is_absolute b then b
  else {| anchor_of := anchor_of a; parts := parts a ++ parts b |}.

(** [str(p)], which is also [p.as_posix()]. *)
Definition str_of_path (p : Path) : str :=
  match anchor_of p with
  | Relative => match parts p with [] => [period] | _ => join [slash] (parts p) end
  | Root => slash :: join [slash] (parts p)
  | Root2 => slash :: slash :: join [slash] (parts p)
  end.

(** [p.name] *)
Definition path_name (p : Path) : str := List.last (parts p) [].

(** [p.parent] *)
Definition parent (p : Path) : Path :=
  {| anchor_of := anchor_of p; parts := removelast (parts p) |}.

(** [p.suffixes] *)
Definition suffixes (p : Path) : list str :=
  let name := path_name p in
  if startswith [period] (rev name) then []
  else map (fun x => period :: x)
           (tl (split_on period (drop_while (N.eqb period) name))).

(** [s.rfind(c)] *)
Fixpoint rfind (c : char) (s : str) : option nat :=
  match s with
  | [] => None
  | x :: s' =>
      match rfind c s' with
      | Some i => Some (S i)
      | None => if N.eqb x c then Some 0 else None
      end
  end.

(** [p.stem] *)
Definition stem (p : Path) : str :=
  let name := path_name p in
  match rfind period name with
  | Some i =>
      if (0 <? i) && (i <? List.length name - 1) then firstn i name else name
  | None => name
  end.

(** ** System calls *)

Definition dotdot : str := [period; period].

(** Walks the directories [ps] from the directory [cur]; every component
    has to be an existing directory. *)
Fixpoint namei (fs : filesystem) (cur ps : list str) : exn + list str :=
  match ps with
  | [] => inr cur
  | p :: ps' =>
      if eqb_str p dotdot then namei fs (removelast cur) ps'
      else
        match fs !! (cur ++ [p]) with
        | Some Dir => namei fs (cur ++ [p]) ps'
        | Some (File _) => inl NotADirectoryError
        | None => inl FileNotFoundError
        end
  end.

(** The location a path names, whether or not something is there. *)
Definition locate (fs : filesystem) (p : Path) : exn + list str :=
  match namei fs [] (removelast (parts p)) with
  | inl e => inl e
  | inr d =>
      match parts p with
      | [] => inr []
      | _ :: _ =>
          let l := path_name p in
          inr (if eqb_str l dotdot then removelast d else d ++ [l])
      end
  end.

Definition node_at (fs : filesystem) (k : list str) : option node :=
  match k with [] => Some Dir | _ :: _ => fs !! k end.

(** [os.stat] *)
Definition stat (fs : filesystem) (p : Path) : exn + node :=
  match locate fs p with
  | inl e => inl e
  | inr k => match node_at fs k with Some n => inr n | None => inl FileNotFoundError end
  end.

(** [p.exists()] *)
Definition path_exists (p : Path) : M bool :=
  fun fs => (fs, inr (match stat fs p with inr _ => true | inl _ => false end)).

(** [p.is_dir()] *)
Definition is_dir (fs : filesystem) (p : Path) : bool :=
  match stat fs p with inr Dir => true | _ => false end.

(** [os.mkdir(p)] *)
Definition os_mkdir (p : Path) : M unit :=
  fun fs =>
    match locate fs p with
    | inl e => (fs, inl e)
    | inr k =>
        match node_at fs k with
        | Some _ => (fs, inl FileExistsError)
        | None => (<[k := Dir]> fs, inr tt)
        end
    end.

(** [p.mkdir(parents=parents, exist_ok=exist_ok)], as [pathlib] writes it:
    try [os.mkdir]; when the parent is missing make it first, then retry.
    [fuel] bounds the climb to the root. *)
Fixpoint path_mkdir (fuel : nat) (parents exist_ok : bool) (p : Path) : M unit :=
  fun fs =>
    match os_mkdir p fs with
    | (fs', inr tt) => (fs', inr tt)
    | (fs', inl FileNotFoundError) =>
        match fuel with
        | S fuel' =>
            if negb parents || is_nil (parts p) then (fs', inl FileNotFoundError)
            else (do path_mkdir fuel' true true (parent p) then
                  path_mkdir fuel' false exist_ok p) fs'
        | O => (fs', inl FileNotFoundError)
        end
    | (fs', inl e) =>
        if negb exist_ok || negb (is_dir fs' p) then (fs', inl e) else (fs', inr tt)
    end.

(** [p.mkdir(parents=True)] *)
Definition mkdir_parents (p : Path) : M unit :=
  path_mkdir (S (List.length (parts p))) true false p.

(** [open(p, "w")] or [open(p, "wb")] followed by one [write]. *)
Definition write_file (p : Path) (c : content) : M unit :=
  fun fs =>
    match locate fs p with
    | inl e => (fs, inl e)
    | inr k =>
        match node_at fs k with
        | Some Dir => (fs, inl IsADirectoryError)
        | _ => (<[k := File c]> fs, inr tt)
        end
    end.

(** [open(p, "rb").read()] *)
Definition read_file (p : Path) : M content :=
  fun fs =>
    match stat fs p with
    | inl e => (fs, inl e)
    | inr Dir => (fs, inl IsADirectoryError)
    | inr (File c) => (fs, inr c)
    end.

(** [shutil.copy(src, dst)] *)
Definition shutil_copy (src dst : Path) : M unit :=
  fun fs =>
    let dst' := if is_dir fs dst then joinpath dst (parse_path (path_name src)) else dst in
    match stat fs src, stat fs dst', locate fs src, locate fs dst' with
    | inr _, inr _, inr a, inr b =>
        if bool_decide (a = b) then (fs, inl SameFileError)
        else (let* c := read_file src in write_file dst' c) fs
    | _, _, _, _ => (let* c := read_file src in write_file dst' c) fs
    end.

(** ** Notebooks (the JSON document, as [json.load] returns it)

    A field that the script reads with [.get] or tests with [in] is an
    [option]: [None] when the key is absent. *)

(** A [multiline_string] of the notebook format: a list of lines, or one
    string. *)
Inductive multiline :=
| Lines (l : list str)
| Single (s : str).

(** [for line in t] *)
Definition iter (t : multiline) : list str :=
  match t with
  | Lines l => l
  | Single s => map (fun c => [c]) s
  end.

(** Truth value of [t] in a condition. *)
Definition truthy (t : multiline) : bool :=
  match t with
  | Lines l => negb (is_nil l)
  | Single s => negb (is_nil s)
  end.

Record mime_bundle := {
  text_plain : option multiline;      (* "text/plain" *)
  image_png : option str              (* "image/png", base64 text *)
}.

Record output := {
  output_type : str;
  data : option mime_bundle;
  text : option multiline
}.

Record cell := {
  cell_type : str;
  source : option multiline;
  id : option str;
  outputs : option (list output)
}.

Record notebook := { cells : option (list cell) }.

Record author_info := {
  name : option str;
  profile_picture : option str;
  bio : option str;
  formatted_name : option str
}.

(** ** The converter *)

(** The three double quotes that open and close the header block. *)
Definition triple_quote : str := repeat 34%N 3.

(** ['#' * 70] *)
Definition rule : str := repeat 35%N 70.

Definition output_header : str :=
  join [nl]
    (map (fun line => py "# " ++ line)
       [py ".. rst-class :: sphx-glr-script-out"; [];
        py "Out:"; [];
        py ".. code-block: none"; []]).

Definition generate_code_output_block (output_source : option multiline)
    (only_header : bool) : str :=
  if only_header then output_header
  else
    let output_text :=
      match output_source with
      | Some t =>
          if truthy t
          then [nl] ++ join [nl] (map (fun line => py "#    " ++ rstrip line) (iter t))
          else []
      | None => []
      end in
    [nl; nl] ++ rule ++ [nl] ++ output_header ++ output_text.

Definition generate_sphinx_role_comment (role_name target : str)
    (attrs : list (str * str)) : str :=
  join [nl]
    ((py "# .. " ++ role_name ++ py ":: " ++ target)
     :: map (fun a => py "#    :" ++ fst a ++ py ": " ++ snd a) attrs).

Section Converter.

(** What the script takes from outside: the Unicode tables behind [\w] and
    [str.lower], the markdown converter [pypandoc.convert_text(_,
    format="md", to="rst", ...)], [base64.b64decode] ([None] when it
    raises), and the directory of the script, [CWD] (an absolute path, given
    by its components). *)
Variable unicode_isalnum : char -> bool.
Variable unicode_lower : char -> str.
Variable pandoc : str -> str.
Variable b64decode : str -> option (list Byte.byte).
Variable CWD : list str.

Definition cwd_path : Path := {| anchor_of := Root; parts := CWD |}.

(** [p if p.is_absolute() else CWD / p] *)
Definition save_loc (p : Path) : Path :=
  if is_absolute p then p else joinpath cwd_path p.

(** [s.lower()]; the code points it is applied to are below U+0080 or above
    U+FFFF, where lowering is character by character. *)
Definition lower (s : str) : str :=
  flat_map (fun c =>
    if in_range 65%N 90%N c then [(c + 32)%N]
    else if (c <? 128)%N then [c]
    else unicode_lower c) s.

(** The class [[ \-'\u0080-￿]]. *)
Definition name_separator (c : char) : bool :=
  (c =? 32)%N || (c =? 45)%N || (c =? 39)%N || in_range 128%N 65535%N c.

(** [author_info.get("formatted_name",
      re.sub(r"[ \-'\u0080-\uFFFF]+", "_", name).lower())] *)
Definition name_formatted (author : author_info) (name : str) : str :=
  match formatted_name author with
  | Some f => f
  | None => lower (re_sub (Plus name_separator) [TLit (py "_")] name)
  end.

Definition set_author_info (author : author_info) (authors_dir : str) : M str :=
  let* name := match name author with
               | Some n => ret n
               | None => raise (KeyError "name")
               end in
  let* picture := match profile_picture author with
                  | Some p => ret p
                  | None => raise (KeyError "profile_picture")
                  end in
  let profile_picture_loc := save_loc (parse_path picture) in
  let bio := match bio author with Some b => b | None => [] end in
  let name_formatted := name_formatted author name in
  let profile_picture_suffix := concat (suffixes profile_picture_loc) in
  let new_profile_picture_name := name_formatted ++ profile_picture_suffix in
  let new_profile_picture_loc :=
    joinpath (parse_path authors_dir) (parse_path new_profile_picture_name) in
  let new_profile_picture_save_loc := save_loc new_profile_picture_loc in
  let info_file_name := name_formatted ++ py ".txt" in
  let info_file_loc := joinpath (parse_path authors_dir) (parse_path info_file_name) in
  let info_file_save_loc := save_loc info_file_loc in
  do shutil_copy profile_picture_loc new_profile_picture_save_loc then
  let author_txt :=
    py ".. bio:: " ++ name ++ [nl]
    ++ py "   :photo: " ++ str_of_path new_profile_picture_loc ++ [nl]
    ++ [nl]
    ++ py "   " ++ bio ++ [nl]
    ++ py "    " in
  do write_file info_file_save_loc (Text author_txt) then
  let author_sphinx :=
    [py "About the author"; py "----------------";
     py ".. include:: " ++ str_of_path info_file_loc] in
  let author_sphinx_txt := join [nl] (map (fun line => py "# " ++ line) author_sphinx) in
  ret ([nl; nl] ++ rule ++ [nl] ++ author_sphinx_txt).

Variable notebook_name : str.
Variable is_executable : bool.
Variable sphinx_gallery_dir_name : str.
Variable notebook_asset_folder_name : str.

(** [Path(sphinx_gallery_dir_name) / notebook_asset_folder_name
      / f"{notebook_name}_{cell_id}_{num_images}.png"] *)
Definition image_file_path (cell_id : str) (num_images : nat) : Path :=
  let image_file_dir :=
    joinpath (parse_path sphinx_gallery_dir_name)
             (parse_path notebook_asset_folder_name) in
  joinpath image_file_dir
    (parse_path (notebook_name ++ py "_" ++ cell_id ++ py "_"
                 ++ str_of_nat num_images ++ py ".png")).

(** The body of the loop over the outputs of a code cell; the state is
    [ret_python_str] and [num_images]. *)
Definition render_output (c : cell) (j : nat) (o : output) (st : str * nat)
    : M (str * nat) :=
  let ret_python_str := fst st in
  let num_images := snd st in
  let output_data := data o in
  if eqb_str (output_type o) (py "execute_result") then
    match output_data with
    | None => raise TypeError
    | Some d =>
        match text_plain d with
        | Some t =>
            ret (ret_python_str
                 ++ generate_code_output_block (Some t) (negb (Nat.eqb j 0)),
                 num_images)
        | None => ret st
        end
    end
  else if eqb_str (output_type o) (py "display_data") then
    let* cell_id := match id c with
                    | Some i => ret i
                    | None => raise (KeyError "id")
                    end in
    match output_data with
    | None => raise TypeError
    | Some d =>
        let ret_python_str :=
          match text_plain d, image_png d with
          | Some t, None =>
              (if Nat.eqb j 0
               then ret_python_str ++ generate_code_output_block None false
               else ret_python_str)
              ++ [nl] ++ join [nl] (map (fun line => py "#    " ++ strip line) (iter t))
          | _, _ => ret_python_str
          end in
        match image_png d with
        | Some payload =>
            let ret_python_str :=
              if Nat.eqb j 0 then ret_python_str ++ [nl; nl] ++ rule
              else ret_python_str in
            let num_images := S num_images in
            let image_file_path := image_file_path cell_id num_images in
            let role_text :=
              generate_sphinx_role_comment (py "figure") (str_of_path image_file_path)
                [(py "align", py "center"); (py "width", py "80%")] in
            let* image_data := match b64decode payload with
                               | Some b => ret b
                               | None => raise BinasciiError
                               end in
            let image_save_loc := save_loc image_file_path in
            let* present := path_exists image_save_loc in
            do (if negb present then mkdir_parents image_save_loc else ret tt) then
            do write_file image_save_loc (Bytes image_data) then
            ret (ret_python_str ++ [nl] ++ py "#" ++ [nl] ++ role_text, num_images)
        | None => ret (ret_python_str, num_images)
        end
    end
  else if eqb_str (output_type o) (py "stream") then
    match text o with
    | Some t =>
        if truthy t
        then ret (ret_python_str ++ generate_code_output_block (Some t) false, num_images)
        else ret st
    | None => ret st
    end
  else ret st.

(** ["".join(cell.get("source", []))] *)
Definition cell_source (c : cell) : str :=
  match source c with
  | Some (Lines l) => concat l
  | Some (Single s) => s
  | None => []
  end.

(** The body of the loop over the cells; the state is [ret_python_str]. *)
Definition convert_cell (i : nat) (c : cell) (ret_python_str : str) : M str :=
  let cell_source := cell_source c in
  if eqb_str (cell_type c) (py "markdown") && negb (is_nil cell_source) then
    let cell_rst_source := pandoc cell_source in
    let cell_rst_source_formatted :=
      fix_image_alt_tag_as_text
        (add_property_newline unicode_isalnum
           (update_sphinx_tags unicode_isalnum cell_rst_source)) in
    if Nat.eqb i 0 then
      ret (py "r" ++ triple_quote ++ cell_rst_source_formatted ++ triple_quote)
    else
      let commented_source :=
        join [nl] (map (fun line => py "# " ++ line)
                       (split_lines cell_rst_source_formatted)) in
      ret (ret_python_str ++ [nl; nl] ++ rule ++ [nl] ++ commented_source)
  else if eqb_str (cell_type c) (py "code") && negb (is_nil cell_source) then
    let ret_python_str := ret_python_str ++ [nl; nl] ++ cell_source in
    if negb is_executable then
      let code_outputs := match outputs c with Some l => l | None => [] end in
      let* st := for_each (render_output c) 0 code_outputs (ret_python_str, 0) in
      ret (fst st)
    else ret ret_python_str
  else ret ret_python_str.

(** [assert cond] *)
Definition assert (cond : bool) : M unit :=
  if cond then ret tt else raise AssertionError.

(** The four assertions at the head of [convert_notebook_to_python]; the
    value is [notebook["cells"]].  (That it is a list is in its type.) *)
Definition initial_validations (nb : notebook) : M (list cell) :=
  let* cells := match cells nb with
                | Some l => ret l
                | None => raise AssertionError
                end in
  do assert (negb (is_nil cells)) then
  do assert (match cells with
             | c :: _ => eqb_str (cell_type c) (py "markdown")
             | [] => false
             end) then
  ret cells.

Definition convert_notebook_to_python (nb : notebook) : M str :=
  let* cells := initial_validations nb in
  let* ret_python_str := for_each convert_cell 0 cells [] in
  ret (replace (nl :: py "%") (nl :: py "# %") ret_python_str).

End Converter.

Section Main.

Variable unicode_isalnum : char -> bool.
Variable unicode_lower : char -> str.
Variable pandoc : str -> str.
Variable b64decode : str -> option (list Byte.byte).
Variable CWD : list str.

(** The script body after the arguments are parsed and the notebook and
    the author file are loaded: [file], [is_executable], [sphinx_gallery_dir]
    and [authors_directory] are the parsed arguments, [nb] and [author] what
    [json.load] and [yaml.safe_load] returned. *)
Definition main (file : str) (is_executable : bool)
    (sphinx_gallery_dir authors_directory : str)
    (nb : notebook) (author : author_info) : M unit :=
  let notebook_file := parse_path file in
  let notebook_file_name := stem notebook_file in
  let notebook_is_executable :=
    startswith (py "tutorial_") notebook_file_name || is_executable in
  let notebook_assets_folder_name :=
    if startswith (py "tutorial_") notebook_file_name
    then skipn (List.length (py "tutorial_")) notebook_file_name
    else notebook_file_name in
  let sphinx_gallery_dir_path := parse_path sphinx_gallery_dir in
  let* author_sphinx := set_author_info unicode_lower CWD author authors_directory in
  let* nb_py :=
    convert_notebook_to_python unicode_isalnum pandoc b64decode CWD
      notebook_file_name notebook_is_executable sphinx_gallery_dir
      notebook_assets_folder_name nb in
  let nb_py := nb_py ++ author_sphinx in
  let gallery_save_loc := save_loc CWD sphinx_gallery_dir_path in
  write_file (joinpath gallery_save_loc (parse_path (notebook_file_name ++ py ".py")))
             (Text nb_py).

End Main.

(** ** Sample inputs *)

(** A stand-in for the Unicode tables, the markdown converter and the
    base64 decoder, and a small file system: the directory of the script
    with the picture of an author in it, and the directory for the author
    files. *)
Definition ascii_only (c : char) : bool := false.
Definition keep_case (c : char) : str := [c].
Definition verbatim (md : str) : str := md.
Definition decode_as (b : list Byte.byte) (payload : str) : option (list Byte.byte) :=
  Some b.

Definition sample_cwd : list str := [py "qml"; py "notebook_converter"].
Definition sample_picture : content := Bytes [Byte.x89; Byte.x50; Byte.x4e; Byte.x47].
Definition sample_fs : filesystem :=
  <[ [py "qml"; py "notebook_converter"; py "jane.png"] := File sample_picture ]>
  (<[ [py "qml"; py "notebook_converter"] := Dir ]>
  (<[ [py "qml"; py "_static"; py "authors"] := Dir ]>
  (<[ [py "qml"; py "_static"] := Dir ]>
  (<[ [py "qml"; py "demonstrations"] := Dir ]>
  (<[ [py "qml"] := Dir ]> ∅))))).

(** A converted fragment with a tagged container and a bare one. *)
Definition sample_fragment : str :=
  py ".. container:: note" ++ [nl] ++ py ".. container::".

Definition jane : author_info :=
  {| name := Some (py "Jane Q. Doe"); profile_picture := Some (py "jane.png");
     bio := None; formatted_name := None |}.

Definition markdown_cell (src : str) : cell :=
  {| cell_type := py "markdown"; source := Some (Lines [src]); id := None;
     outputs := None |}.

Definition code_cell (src : str) (cell_id : option str) (outs : list output) : cell :=
  {| cell_type := py "code"; source := Some (Lines [src]); id := cell_id;
     outputs := Some outs |}.

Definition execute_result (t : multiline) : output :=
  {| output_type := py "execute_result";
     data := Some {| text_plain := Some t; image_png := None |};
     text := None |}.

Definition display_text (t : multiline) : output :=
  {| output_type := py "display_data";
     data := Some {| text_plain := Some t; image_png := None |};
     text := None |}.

Definition display_image (payload : str) : output :=
  {| output_type := py "display_data";
     data := Some {| text_plain := None; image_png := Some payload |};
     text := None |}.

(** ** What each pattern finds

    For each pattern of the script, the match at the head of a string
    written out directly: the text that replaces it and the rest of the
    string.  The properties below relate them to the engine. *)

Section Finders.

Variable unicode_isalnum : char -> bool.

Definition find_tag (s : str) : option (str * str) :=
  if startswith (py ".. container:: ") s then
    let (w, rest) := span (word unicode_isalnum) (skipn 15 s) in
    if is_nil w then None else Some (py ".. " ++ w ++ py "::", rest)
  else None.

Definition find_property (s : str) : option (str * str) :=
  let (w, rest) := span (word unicode_isalnum) s in
  if is_nil w then None
  else if startswith (py " :property=") rest
       then Some (w ++ nl :: py "   :property=", skipn 11 rest)
       else None.

End Finders.

Definition find_alt (s : str) : option (str * str) :=
  if startswith (py "   :alt: ") s then
    let (x, r1) := span dot (skipn 9 s) in
    if is_nil x then None
    else if startswith (nl :: nl :: py "   ") r1 then
      let (y, r2) := span dot (skipn 5 r1) in
      if is_nil y then None else Some (py "   :alt: " ++ x, r2)
    else None
  else None.

(** The scan of [re.sub] over a finder that never finds the empty string. *)
Definition lift_find (F : str -> option (str * str)) (adv : bool) (s : str)
    : option (str * bool * str) :=
  match F s with
  | Some (out, rest) => Some (out, false, rest)
  | None => None
  end.

Definition sub_with (F : str -> option (str * str)) (s : str) : str :=
  scan (scan_fuel s) (lift_find F) false s.

(** A finder makes progress when what follows a match is shorter than the
    string, and stops at a newline before the texts [Z] when what it finds
    before such a newline does not depend on the text after it. *)
Definition progresses (F : str -> option (str * str)) : Prop :=
  forall s out rest, F s = Some (out, rest) -> List.length rest < List.length s.

Definition stops_at_newline (Z : str -> Prop) (F : str -> option (str * str)) : Prop :=
  forall x y,
    Z y ->
    F (x ++ nl :: y)
    = match F x with
      | Some (out, rest) => Some (out, rest ++ nl :: y)
      | None => None
      end.

Definition any_text (y : str) : Prop := True.

(** [y] begins with a character that is neither a newline nor a space. *)
Definition begins_with_text (y : str) : Prop :=
  exists c z, y = c :: z /\ c <> nl /\ c <> space.

(** [l] is a line of [s]: it stands at the start of [s] or after a newline,
    and ends at the end of [s] or before a newline. *)
Definition ends_line (b : str) : Prop := b = [] \/ exists b', b = nl :: b'.

Definition line_of (l s : str) : Prop :=
  (exists b, s = l ++ b /\ ends_line b)
  \/ (exists a b, s = a ++ nl :: l ++ b /\ ends_line b).

(** A notebook with a title, a magic command and a code cell with a text
    result; and the sample file system after an earlier run has left an
    image file for the cell [c1] of the notebook [nb]. *)
Definition sample_notebook : notebook :=
  {| cells := Some [ markdown_cell (py "# T");
                     code_cell (py "%matplotlib inline") None [];
                     code_cell (py "print(1)") (Some (py "c1"))
                       [execute_result (Lines [py "1"])] ] |}.

Definition sample_fs_with_image : filesystem :=
  <[ [py "qml"; py "demonstrations"; py "nb"; py "nb_c1_1.png"] := File (Bytes []) ]>
  (<[ [py "qml"; py "demonstrations"; py "nb"] := Dir ]> sample_fs).

(** What [replace("\n%", "\n# %")] finds at the head of a string. *)
Definition find_percent (s : str) : option (str * str) :=
  if startswith (nl :: py "%") s then Some (nl :: py "# %", skipn 2 s) else None.

(** What [re.sub] with the class of [set_author_info] finds at the head of
    a string: a run of separators, replaced by an underscore. *)
Definition find_separators (s : str) : option (str * str) :=
  let (w, rest) := span name_separator s in
  if is_nil w then None else Some (py "_", rest).

(** The cell without its captured outputs. *)
Definition erase_outputs (c : cell) : cell :=
  {| cell_type := cell_type c; source := source c; id := id c; outputs := None |}.

(** ** Predicates used in the statements *)

(** The output cannot make the renderer save an image: it is not a
    [display_data] record, or it has no [image/png], or its payload does not
    decode. *)
Definition saves_no_image (b64decode : str -> option (list Byte.byte)) (o : output)
    : Prop :=
  output_type o <> py "display_data"
  \/ forall d payload,
       data o = Some d -> image_png d = Some payload -> b64decode payload = None.



(** [p] ends in one newline and not in two: what follows [p] starts a line
    and does not come after an empty line that follows other text. *)
Definition ends_in_one_newline (p : str) : Prop :=
  exists q, p = q ++ [nl] /\ forall q', q <> q' ++ [nl].

(** Every file of [fs'] is a file of [fs], at the same place and with the
    same content: between [fs] and [fs'] no file was written. *)
Definition no_file_written (fs fs' : filesystem) : Prop :=
  forall k c, fs' !! k = Some (File c) -> fs !! k = Some (File c).

(** [doc'] is [doc] with text added at its end. *)
Definition extends (doc doc' : str) : Prop := exists x, doc' = doc ++ x.

(** [doc] is empty or begins with a newline. *)
Definition starts_on_newline (doc : str) : Prop := doc = [] \/ exists y, doc = nl :: y.

(** * Properties *)

Lemma eqb_str_eq (a b : str) : eqb_str a b = true <-> a = b.
Proof.
  revert b; induction a as [|x a IH]; intros [|y b]; simpl; split;
    try congruence; try discriminate; auto.
  - intros [Hxy Hab]%andb_prop. apply N.eqb_eq in Hxy. apply IH in Hab. congruence.
  - intros [= -> ->]. rewrite N.eqb_refl. simpl. now apply IH.
Qed.

Lemma eqb_str_refl (a : str) : eqb_str a a = true.
Proof. now apply eqb_str_eq. Qed.

Lemma eqb_str_neq (a b : str) : a <> b -> eqb_str a b = false.
Proof.
  intros H. destruct (eqb_str a b) eqn:E; [|reflexivity].
  apply eqb_str_eq in E. contradiction.
Qed.

Lemma is_nil_false {A} (l : list A) : l <> [] -> is_nil l = false.
Proof. now destruct l. Qed.

Section ConverterFacts.

Variable unicode_isalnum : char -> bool.
Variable unicode_lower : char -> str.
Variable pandoc : str -> str.
Variable b64decode : str -> option (list Byte.byte).
Variable CWD : list str.

Implicit Types (nbname gallery assets : str) (exe : bool) (fs : filesystem).

Local Abbreviation render := (render_output b64decode CWD).
Local Abbreviation convert_cell_with := (convert_cell unicode_isalnum pandoc b64decode CWD).
Local Abbreviation convert := (convert_notebook_to_python unicode_isalnum pandoc b64decode CWD).
Local Abbreviation author_block := (set_author_info unicode_lower CWD).
Local Abbreviation run_main := (main unicode_isalnum unicode_lower pandoc b64decode CWD).

(** *** Live-executable cells *)

(** C7.  With [is_executable] set, a code cell with a source appends two
    newlines and the source, and nothing else: the outputs of the cell are
    not looked at, and the file system is left alone. *)
Theorem live_code_cell_appends_source_only nbname gallery assets (i : nat)
    (c : cell) (doc : str) fs :
  cell_type c = py "code" ->
  cell_source c <> [] ->
  convert_cell_with nbname true gallery assets i c doc fs
  = (fs, inr (doc ++ [nl; nl] ++ cell_source c)).
Proof.
  intros Hty Hsrc. unfold convert_cell. rewrite Hty.
  change (eqb_str (py "code") (py "markdown")) with false.
  change (eqb_str (py "code") (py "code")) with true.
  rewrite (is_nil_false _ Hsrc). reflexivity.
Qed.

(** *** Structural validation *)

Lemma initial_validations_rejects (nb : notebook) fs :
  cells nb = None \/ cells nb = Some []
  \/ (exists c cs, cells nb = Some (c :: cs) /\ cell_type c <> py "markdown") ->
  initial_validations nb fs = (fs, inl AssertionError).
Proof.
  unfold initial_validations, bind.
  intros [H | [H | (c & cs & H & Hty)]]; rewrite H; simpl; try reflexivity.
  now rewrite (eqb_str_neq _ _ Hty).
Qed.

(** C4.  A notebook without [cells], with no cell, or whose first cell is not
    a markdown cell makes [convert_notebook_to_python] raise at its initial
    assertions, before anything is written; the script then stops with the
    file system as the author block left it: the document is never
    written. *)
Theorem invalid_notebook_is_rejected (nb : notebook) :
  cells nb = None \/ cells nb = Some []
  \/ (exists c cs, cells nb = Some (c :: cs) /\ cell_type c <> py "markdown") ->
  (forall nbname exe gallery assets fs,
      convert nbname exe gallery assets nb fs = (fs, inl AssertionError))
  /\ (forall file exe gallery authors author fs,
        run_main file exe gallery authors nb author fs
        = match author_block author authors fs with
          | (fs1, inl e) => (fs1, inl e)
          | (fs1, inr _) => (fs1, inl AssertionError)
          end).
Proof.
  intros H.
  assert (Hconv : forall nbname exe gallery assets fs,
             convert nbname exe gallery assets nb fs = (fs, inl AssertionError)).
  { intros. unfold convert_notebook_to_python, bind.
    now rewrite (initial_validations_rejects nb fs H). }
  split; [exact Hconv|].
  intros. unfold main, bind.
  destruct (author_block author authors fs) as [fs1 [e|frag]]; [reflexivity|].
  now rewrite Hconv.
Qed.

(** *** Text outputs *)

(** The first output of a cell, when it is an [execute_result] with text,
    appends the rule, the "Out:" header and every line, indented. *)
Lemma first_execute_result_block nbname gallery assets (c : cell) (t : multiline)
    (doc : str) (n : nat) fs :
  render nbname gallery assets c 0 (execute_result t) (doc, n) fs
  = (fs, inr (doc ++ generate_code_output_block (Some t) false, n)).
Proof. reflexivity. Qed.

(** C1.  An [execute_result] with text that is not the first output of its
    cell appends the header and none of its lines; so a cell with two such
    outputs gets the header twice and loses the text of the second. *)
Theorem later_execute_result_appends_header_only :
  (forall nbname gallery assets (c : cell) (j : nat) (t : multiline) (img : option str)
          (tx : option multiline) (doc : str) (n : nat) fs,
      render nbname gallery assets c (S j)
        {| output_type := py "execute_result";
           data := Some {| text_plain := Some t; image_png := img |};
           text := tx |} (doc, n) fs
      = (fs, inr (doc ++ output_header, n)))
  /\ (forall nbname gallery assets (c : cell) (doc : str) fs,
        for_each (render nbname gallery assets c) 0
          [execute_result (Lines [py "a"]); execute_result (Lines [py "b"])]
          (doc, 0) fs
        = (fs, inr (doc ++ [nl; nl] ++ rule ++ [nl] ++ output_header
                        ++ [nl] ++ py "#    a" ++ output_header, 0))).
Proof.
  split; [reflexivity|].
  intros. cbn [for_each]. unfold bind.
  rewrite first_execute_result_block.
  change (render nbname gallery assets c 1 (execute_result (Lines [py "b"])))
    with (render nbname gallery assets c 1
            {| output_type := py "execute_result";
               data := Some {| text_plain := Some (Lines [py "b"]); image_png := None |};
               text := None |}).
  unfold render_output at 1. cbn -[output_header rule app].
  rewrite <- !app_assoc. reflexivity.
Qed.

(** *** Records without the expected representation *)

(** C6 (as the code has it).  An [execute_result] or [display_data] record
    without a data mapping raises ([TypeError]; a [display_data] record in a
    cell without an id raises [KeyError] first).  A record whose data mapping
    has neither text nor image, and a [stream] record without text, are
    skipped: the document, the image counter and the file system stay as
    they were.  In no case is any text added. *)
Theorem record_without_representation nbname gallery assets (c : cell) (j : nat)
    (st : str * nat) fs :
  (forall tx,
      render nbname gallery assets c j
        {| output_type := py "execute_result"; data := None; text := tx |} st fs
      = (fs, inl TypeError))
  /\ (forall tx,
        render nbname gallery assets c j
          {| output_type := py "display_data"; data := None; text := tx |} st fs
        = (fs, inl (match id c with Some _ => TypeError | None => KeyError "id" end)))
  /\ (forall img tx,
        render nbname gallery assets c j
          {| output_type := py "execute_result";
             data := Some {| text_plain := None; image_png := img |};
             text := tx |} st fs
        = (fs, inr st))
  /\ (forall tx,
        render nbname gallery assets c j
          {| output_type := py "display_data";
             data := Some {| text_plain := None; image_png := None |};
             text := tx |} st fs
        = (fs, match id c with Some _ => inr st | None => inl (KeyError "id") end))
  /\ (forall d,
        render nbname gallery assets c j
          {| output_type := py "stream"; data := d; text := None |} st fs
        = (fs, inr st)).
Proof.
  repeat split; intros; unfold render_output, bind; cbn;
    try reflexivity; destruct (id c), st; reflexivity.
Qed.

(** [display_data] strips both ends of a line, [execute_result] the right
    end only. *)

Lemma drop_while_length (p : char -> bool) (s : str) :
  List.length (drop_while p s) <= List.length s.
Proof.
  induction s as [|a s IH]; simpl; [lia|]. destruct (p a); simpl; lia.
Qed.

Lemma drop_while_same_length (p : char -> bool) (s : str) :
  List.length (drop_while p s) = List.length s -> drop_while p s = s.
Proof.
  destruct s as [|c s]; [reflexivity|]. simpl. destruct (p c); [|reflexivity].
  pose proof (drop_while_length p s). simpl. lia.
Qed.

Lemma strip_length (l : str) : List.length (strip l) <= List.length (rstrip l).
Proof. apply drop_while_length. Qed.

Lemma join_length_le (sep : str) (f g : str -> str) (l : list str) :
  (forall x, List.length (f x) <= List.length (g x)) ->
  List.length (join sep (map f l)) <= List.length (join sep (map g l)).
Proof.
  intros Hfg. induction l as [|x l IH]; [reflexivity|].
  cbn [map join]. specialize (Hfg x).
  destruct l as [|y l]; [exact Hfg|].
  cbn [map] in *. rewrite !length_app. lia.
Qed.

(** Two joins of the same lines, each line of the one not longer than the
    line of the other, are of one length only when the lines are. *)
Lemma join_same_length (sep : str) (f g : str -> str) (l : list str) :
  (forall x, List.length (f x) <= List.length (g x)) ->
  List.length (join sep (map f l)) = List.length (join sep (map g l)) ->
  Forall (fun x => List.length (f x) = List.length (g x)) l.
Proof.
  intros Hfg. induction l as [|x l IH]; intros H; [constructor|].
  pose proof (join_length_le sep f g l Hfg) as Hle. specialize (Hfg x) as Hx.
  cbn [map join] in H.
  destruct l as [|y l].
  - constructor; [exact H|constructor].
  - cbn [map] in *. rewrite !length_app in H.
    constructor; [lia|apply IH; lia].
Qed.

Lemma same_strip_lines (t : list str) :
  join [nl] (map (fun line => py "#    " ++ strip line) t)
  = join [nl] (map (fun line => py "#    " ++ rstrip line) t)
  <-> Forall (fun line => strip line = rstrip line) t.
Proof.
  split.
  - intros H. apply (f_equal (@List.length char)) in H.
    apply join_same_length in H.
    + apply List.Forall_forall. intros x Hx.
      rewrite List.Forall_forall in H. specialize (H x Hx).
      rewrite !length_app in H.
      apply drop_while_same_length. unfold strip, lstrip in H. lia.
    + intros x. rewrite !length_app. pose proof (strip_length x). lia.
  - intros H. f_equal. apply map_ext_in. intros x Hx.
    rewrite List.Forall_forall in H. now rewrite (H x Hx).
Qed.

Lemma block_with_text (t : multiline) :
  generate_code_output_block (Some t) false
  = generate_code_output_block None false
    ++ (if truthy t
        then nl :: join [nl] (map (fun line => py "#    " ++ rstrip line) (iter t))
        else []).
Proof.
  unfold generate_code_output_block. cbn iota.
  now destruct (truthy t); rewrite <- !app_assoc.
Qed.

Lemma display_text_rendered nbname gallery assets (c : cell) (cell_id : str)
    (j : nat) (t : multiline) (doc : str) (n : nat) fs :
  id c = Some cell_id ->
  render nbname gallery assets c j (display_text t) (doc, n) fs
  = (fs, inr (doc ++ (if Nat.eqb j 0 then generate_code_output_block None false else [])
              ++ nl :: join [nl] (map (fun line => py "#    " ++ strip line) (iter t)),
              n)).
Proof.
  intros Hid. unfold render_output, bind.
  cbn [display_text output_type data text_plain image_png fst snd].
  change (eqb_str (py "display_data") (py "execute_result")) with false.
  change (eqb_str (py "display_data") (py "display_data")) with true.
  cbn iota. rewrite Hid. unfold ret.
  destruct (Nat.eqb j 0); now rewrite <- ?app_assoc.
Qed.

Lemma execute_result_rendered nbname gallery assets (c : cell)
    (j : nat) (t : multiline) (doc : str) (n : nat) fs :
  render nbname gallery assets c j (execute_result t) (doc, n) fs
  = (fs, inr (doc ++ (if Nat.eqb j 0
                      then generate_code_output_block None false
                           ++ (if truthy t
                               then nl :: join [nl]
                                            (map (fun line => py "#    " ++ rstrip line)
                                               (iter t))
                               else [])
                      else output_header),
              n)).
Proof.
  unfold render_output.
  cbn [execute_result output_type data text_plain image_png fst snd].
  change (eqb_str (py "execute_result") (py "execute_result")) with true.
  cbn iota. unfold ret. destruct (Nat.eqb j 0); cbn [negb].
  - now rewrite block_with_text.
  - reflexivity.
Qed.

(** C5 (as the code has it).  A [display_data] record with text and no image
    is rendered as an [execute_result] with the same text in one case only:
    it is the first output of its cell, the cell has an id, the text is not
    empty, and on every line of it stripping both ends gives what stripping
    the right end gives (the line does not begin with white space, or is
    white space only).  The [display_data] path strips both ends of a
    line where the [execute_result] path strips the right end; it reads the
    cell id first; it adds a newline for an empty text; and at a later
    position it adds its lines where the other path adds a header only. *)
Theorem display_text_like_execute_result_iff nbname gallery assets (c : cell)
    (j : nat) (t : multiline) (doc : str) (n : nat) fs :
  render nbname gallery assets c j (display_text t) (doc, n) fs
  = render nbname gallery assets c j (execute_result t) (doc, n) fs
  <-> j = 0 /\ id c <> None /\ truthy t = true
      /\ Forall (fun line => strip line = rstrip line) (iter t).
Proof.
  rewrite execute_result_rendered.
  destruct (id c) as [cell_id|] eqn:Hid.
  - rewrite (display_text_rendered _ _ _ c cell_id j t doc n fs Hid).
    destruct j as [|j]; cbn [Nat.eqb].
    + remember (generate_code_output_block None false) as head eqn:Hhead.
      clear Hhead. destruct (truthy t) eqn:Ht.
      * rewrite <- (same_strip_lines (iter t)). split.
        -- intros [= H]. repeat split; [discriminate|].
           do 2 apply app_inv_head in H. now injection H.
        -- now intros (_ & _ & _ & ->).
      * split; [|now intros (_ & _ & ? & _)].
        intros [= H]. do 2 apply app_inv_head in H. discriminate.
    + split; [|now intros (? & _)].
      intros [= H]. apply app_inv_head in H.
      change output_header with (35%N :: tl output_header) in H. discriminate.
  - split; [|now intros (_ & ? & _)].
    unfold render_output, bind.
    cbn [display_text output_type data text_plain image_png fst snd].
    change (eqb_str (py "display_data") (py "execute_result")) with false.
    change (eqb_str (py "display_data") (py "display_data")) with true.
    cbn iota. rewrite Hid. discriminate.
Qed.

(** *** A first cell without source *)

Lemma extends_refl (doc : str) : extends doc doc.
Proof. exists []. now rewrite app_nil_r. Qed.

Lemma extends_app (doc doc' x : str) : extends doc doc' -> extends doc (doc' ++ x).
Proof. intros [y ->]. exists (y ++ x). now rewrite app_assoc. Qed.

Lemma extends_trans (a b c : str) : extends a b -> extends b c -> extends a c.
Proof. intros [x ->] [y ->]. exists (x ++ y). now rewrite app_assoc. Qed.

Lemma for_each_invariant {A St} (body : nat -> A -> St -> M St)
    (Q : nat -> Prop) (P : St -> Prop) :
  (forall i, Q i -> Q (S i)) ->
  (forall i x st fs fs' st', Q i -> P st -> body i x st fs = (fs', inr st') -> P st') ->
  forall l i st fs fs' st',
    Q i -> P st -> for_each body i l st fs = (fs', inr st') -> P st'.
Proof.
  intros HQ Hstep l. induction l as [|x l IH]; intros i st fs fs' st' Hi Hst; simpl.
  - now intros [= <- <-].
  - unfold bind. destruct (body i x st fs) as [fs1 [e|st1]] eqn:E; [easy|].
    intros Hrest. eapply IH; [apply HQ, Hi| |exact Hrest]. eauto.
Qed.

Lemma render_output_extends nbname gallery assets (c : cell) (j : nat) (o : output)
    (st st' : str * nat) fs fs' :
  render nbname gallery assets c j o st fs = (fs', inr st') ->
  extends (fst st) (fst st').
Proof.
  destruct st as [doc n]. unfold render_output, bind, ret, raise. cbn [fst snd].
  repeat case_match; intros; simplify_eq; cbn [fst];
    rewrite ?app_assoc; eauto using extends_refl, extends_app.
Qed.

Lemma newline_head_extends (doc doc' : str) :
  (exists y, doc = nl :: y) -> extends doc doc' -> exists y, doc' = nl :: y.
Proof. intros [y ->] [x ->]. now exists (y ++ x). Qed.

Lemma starts_on_newline_app (doc y : str) :
  starts_on_newline doc -> exists z, doc ++ nl :: y = nl :: z.
Proof. intros [-> | [z ->]]; simpl; eauto. Qed.

Lemma outputs_loop_extends nbname gallery assets (c : cell) (outs : list output)
    (j : nat) (st st' : str * nat) fs fs' :
  for_each (render nbname gallery assets c) j outs st fs = (fs', inr st') ->
  extends (fst st) (fst st').
Proof.
  intros H.
  apply (for_each_invariant _ (fun _ => True) (fun x => extends (fst st) (fst x))) in H;
    auto using extends_refl.
  intros ? ? ? ? ? ? _ Hst Hr. apply render_output_extends in Hr.
  eapply extends_trans; eauto.
Qed.

Lemma convert_cell_later nbname exe gallery assets (i : nat) (c : cell)
    (doc doc' : str) fs fs' :
  starts_on_newline doc ->
  convert_cell_with nbname exe gallery assets (S i) c doc fs = (fs', inr doc') ->
  starts_on_newline doc'.
Proof.
  intros Hdoc. unfold convert_cell, bind, ret. cbn [Nat.eqb].
  destruct (eqb_str (cell_type c) (py "markdown") && _).
  - intros [= <- <-]. right. apply (starts_on_newline_app doc), Hdoc.
  - destruct (eqb_str (cell_type c) (py "code") && _).
    + destruct (negb exe).
      * destruct (for_each _ _ _ _ _) as [fs1 [e|st1]] eqn:E; [easy|].
        intros [= <- <-]. apply outputs_loop_extends in E. cbn [fst] in E. right.
        eapply newline_head_extends; [|exact E].
        apply (starts_on_newline_app doc), Hdoc.
      * intros [= <- <-]. right. apply (starts_on_newline_app doc), Hdoc.
    + now intros [= <- <-].
Qed.

Lemma replace_percent_head (doc : str) :
  starts_on_newline doc ->
  starts_on_newline (replace (nl :: py "%") (nl :: py "# %") doc).
Proof.
  intros [-> | [y ->]]; [now left|]. right. unfold replace, scan_fuel.
  cbn [List.length Nat.mul Nat.add scan startswith].
  rewrite N.eqb_refl. cbn [andb].
  destruct (startswith (py "%") y); simpl; eauto.
Qed.

(** C10.  When the first cell is a markdown cell without source, the initial
    assertions pass, the cell adds nothing, and the document is what the
    later cells add to the empty string; it does not begin with the opening
    of a header block. *)
Theorem empty_first_cell_gives_no_header nbname exe gallery assets (c : cell)
    (cs : list cell) fs :
  cell_type c = py "markdown" ->
  cell_source c = [] ->
  initial_validations {| cells := Some (c :: cs) |} fs = (fs, inr (c :: cs))
  /\ convert nbname exe gallery assets {| cells := Some (c :: cs) |} fs
     = (let* doc := for_each (convert_cell_with nbname exe gallery assets) 1 cs [] in
        ret (replace (nl :: py "%") (nl :: py "# %") doc)) fs
  /\ (forall fs' doc,
        convert nbname exe gallery assets {| cells := Some (c :: cs) |} fs
        = (fs', inr doc) ->
        startswith (py "r" ++ triple_quote) doc = false).
Proof.
  intros Hty Hsrc.
  assert (Hval : initial_validations {| cells := Some (c :: cs) |} fs
                 = (fs, inr (c :: cs))).
  { unfold initial_validations, bind. cbn. rewrite Hty. reflexivity. }
  assert (Hconv : convert nbname exe gallery assets {| cells := Some (c :: cs) |} fs
     = (let* doc := for_each (convert_cell_with nbname exe gallery assets) 1 cs [] in
        ret (replace (nl :: py "%") (nl :: py "# %") doc)) fs).
  { unfold convert_notebook_to_python. unfold bind at 1. rewrite Hval.
    cbn [for_each]. unfold bind at 2.
    unfold convert_cell at 1. rewrite Hty, Hsrc. reflexivity. }
  split; [exact Hval|]. split; [exact Hconv|].
  intros fs' doc. rewrite Hconv. unfold bind, ret.
  destruct (for_each (convert_cell_with nbname exe gallery assets) 1 cs [] fs)
    as [fs1 [e|doc0]] eqn:E; [easy|].
  intros [= <- <-].
  apply (for_each_invariant _ (fun i => 1 <= i) starts_on_newline) in E;
    [|lia| |lia|now left].
  - apply replace_percent_head in E. destruct E as [-> | [y ->]]; reflexivity.
  - intros [|i] x st ? ? ? Hi Hst Hr; [lia|]. eapply convert_cell_later; eauto.
Qed.

(** *** Image outputs *)

Lemma no_file_written_refl fs : no_file_written fs fs.
Proof. now intros k c. Qed.

Lemma no_file_written_trans fs1 fs2 fs3 :
  no_file_written fs1 fs2 -> no_file_written fs2 fs3 -> no_file_written fs1 fs3.
Proof. intros H12 H23 k c H. auto. Qed.

Lemma os_mkdir_inv (p : Path) fs fs' (r : exn + unit) :
  os_mkdir p fs = (fs', r) ->
  (r = inr tt /\ exists k, locate fs p = inr k /\ node_at fs k = None
                           /\ fs' = <[k := Dir]> fs)
  \/ (fs' = fs /\ exists e, r = inl e).
Proof.
  unfold os_mkdir. destruct (locate fs p) as [e|k] eqn:Hk.
  - intros [= <- <-]. right. eauto.
  - destruct (node_at fs k) eqn:Hn; intros [= <- <-]; [right; eauto|].
    left. split; [reflexivity|]. exists k. auto.
Qed.

Lemma os_mkdir_no_file_written (p : Path) fs fs' (r : exn + unit) :
  os_mkdir p fs = (fs', r) -> no_file_written fs fs'.
Proof.
  intros [(_ & k & _ & Hn & ->) | (-> & _)]%os_mkdir_inv;
    [|apply no_file_written_refl].
  intros k' c. destruct (decide (k = k')) as [<-|Hne].
  - now rewrite lookup_insert_eq.
  - now rewrite lookup_insert_ne.
Qed.

Lemma path_mkdir_no_file_written (fuel : nat) :
  forall (parents exist_ok : bool) (p : Path) fs fs' (r : exn + unit),
    path_mkdir fuel parents exist_ok p fs = (fs', r) -> no_file_written fs fs'.
Proof.
  induction fuel as [|fuel IH]; intros parents exist_ok p fs fs' r; simpl;
    destruct (os_mkdir p fs) as [fs1 [e|[]]] eqn:E;
    apply os_mkdir_no_file_written in E.
  - destruct e; try destruct (negb exist_ok || negb (is_dir fs1 p));
      now intros [= <- <-].
  - now intros [= <- <-].
  - destruct e; try (destruct (negb exist_ok || negb (is_dir fs1 p));
                     now intros [= <- <-]).
    destruct (negb parents || is_nil (parts p)); [now intros [= <- <-]|].
    unfold bind.
    destruct (path_mkdir fuel true true (parent p) fs1) as [fs2 [e|[]]] eqn:E1;
      apply IH in E1.
    + intros [= <- <-]. eauto using no_file_written_trans.
    + intros E2. apply IH in E2. eauto using no_file_written_trans.
  - now intros [= <- <-].
Qed.

(** A successful [p.mkdir(..., exist_ok=False)] ends with a successful
    [os.mkdir(p)]. *)
Lemma path_mkdir_made (fuel : nat) (parents : bool) (p : Path) fs fs' :
  path_mkdir fuel parents false p fs = (fs', inr tt) ->
  exists fs0, os_mkdir p fs0 = (fs', inr tt).
Proof.
  destruct fuel as [|fuel]; simpl;
    destruct (os_mkdir p fs) as [fs1 [e|[]]] eqn:E.
  - destruct e; simpl; discriminate.
  - intros [= <-]. eauto.
  - destruct e; simpl; try discriminate.
    destruct (negb parents || is_nil (parts p)); [discriminate|].
    unfold bind.
    destruct (path_mkdir fuel true true (parent p) fs1) as [fs2 [e|[]]];
      [discriminate|].
    destruct fuel as [|fuel]; simpl;
      destruct (os_mkdir p fs2) as [fs3 [e|[]]] eqn:E3;
      try (destruct e; simpl; discriminate); intros [= <-]; eauto.
  - intros [= <-]. eauto.
Qed.

Lemma namei_insert (fs : filesystem) (k : list str) (n : node) :
  fs !! k = None ->
  forall ps cur d, namei fs cur ps = inr d -> namei (<[k := n]> fs) cur ps = inr d.
Proof.
  intros Hk ps. induction ps as [|p ps IH]; intros cur d; simpl; [easy|].
  destruct (eqb_str p dotdot); [apply IH|].
  destruct (fs !! (cur ++ [p])) as [[c|]|] eqn:E; try discriminate.
  rewrite lookup_insert_ne by congruence. rewrite E. apply IH.
Qed.

(** Where [os.mkdir(p)] has just succeeded, [open(p, "wb")] raises. *)
Lemma write_after_mkdir (p : Path) (c : content) fs0 fs' :
  os_mkdir p fs0 = (fs', inr tt) ->
  write_file p c fs' = (fs', inl IsADirectoryError).
Proof.
  intros [(_ & k & Hloc & Hn & ->) | (_ & e & [=])]%os_mkdir_inv.
  assert (Hk : fs0 !! k = None) by (destruct k; [discriminate|exact Hn]).
  unfold write_file, locate in *.
  destruct (namei fs0 [] (removelast (parts p))) as [e|d] eqn:Hd; [discriminate|].
  rewrite (namei_insert fs0 k Dir Hk _ _ _ Hd), Hloc.
  destruct k; [discriminate|]. cbn [node_at]. now rewrite lookup_insert_eq.
Qed.

(** C2.  When nothing exists yet where an image is to be saved, rendering
    the [display_data] record raises: [mkdir] makes a directory of the
    image's own path, so that [open] fails.  No file is written, the image
    least of all. *)
Theorem image_is_not_written_where_absent nbname gallery assets (c : cell)
    (cell_id : str) (j : nat) (payload : str) (tp tx : option multiline)
    (doc : str) (n : nat) fs :
  id c = Some cell_id ->
  path_exists (save_loc CWD (image_file_path nbname gallery assets cell_id (S n))) fs
  = (fs, inr false) ->
  exists fs' e,
    render nbname gallery assets c j
      {| output_type := py "display_data";
         data := Some {| text_plain := tp; image_png := Some payload |};
         text := tx |} (doc, n) fs
    = (fs', inl e)
    /\ no_file_written fs fs'.
Proof.
  intros Hid Habsent. unfold render_output, bind.
  cbn [output_type data text_plain image_png fst snd].
  change (eqb_str (py "display_data") (py "execute_result")) with false.
  change (eqb_str (py "display_data") (py "display_data")) with true.
  cbn iota. rewrite Hid. unfold ret at 1.
  destruct (b64decode payload) as [bytes|];
    [|eauto using no_file_written_refl].
  unfold ret at 1. rewrite Habsent. cbn [negb].
  unfold mkdir_parents.
  destruct (path_mkdir _ true false _ fs) as [fs1 [e|[]]] eqn:E.
  - apply path_mkdir_no_file_written in E. eauto.
  - pose proof (path_mkdir_no_file_written _ _ _ _ _ _ _ E) as Hfiles.
    apply path_mkdir_made in E as [fs0 E].
    rewrite (write_after_mkdir _ (Bytes bytes) _ _ E). eauto.
Qed.
End ConverterFacts.

(** *** The author block *)

(** C3 (as the code has it).  For the author "Jane Q. Doe" with the picture
    [jane.png] and no formatted name, the stem is [jane_q._doe]: spaces are
    replaced and letters lowered, the period after the initial stays.  In the
    sample file system the call copies the picture to [jane_q._doe.png] and
    writes [jane_q._doe.txt] in the authors directory, changes nothing else,
    and returns the block that includes [jane_q._doe.txt]. *)
Theorem jane_author_block (unicode_lower : char -> str) :
  name_formatted unicode_lower jane (py "Jane Q. Doe") = py "jane_q._doe"
  /\ set_author_info unicode_lower sample_cwd jane (py "../_static/authors") sample_fs
     = (<[ [py "qml"; py "_static"; py "authors"; py "jane_q._doe.txt"] :=
             File (Text (py ".. bio:: Jane Q. Doe" ++ [nl]
                         ++ py "   :photo: ../_static/authors/jane_q._doe.png" ++ [nl]
                         ++ [nl]
                         ++ py "   " ++ [nl]
                         ++ py "    ")) ]>
         (<[ [py "qml"; py "_static"; py "authors"; py "jane_q._doe.png"] :=
               File sample_picture ]> sample_fs),
        inr ([nl; nl] ++ rule ++ [nl]
             ++ py "# About the author" ++ [nl]
             ++ py "# ----------------" ++ [nl]
             ++ py "# .. include:: ../_static/authors/jane_q._doe.txt")).
Proof. split; vm_compute; reflexivity. Qed.

(** The stem is not [jane_q_doe], no file of that stem appears, and the
    returned block does not mention [jane_q_doe.txt]. *)
Lemma jane_stem_is_not_jane_q_doe :
  name_formatted keep_case jane (py "Jane Q. Doe") <> py "jane_q_doe"
  /\ fst (set_author_info keep_case sample_cwd jane (py "../_static/authors") sample_fs)
       !! [py "qml"; py "_static"; py "authors"; py "jane_q_doe.png"] = None
  /\ fst (set_author_info keep_case sample_cwd jane (py "../_static/authors") sample_fs)
       !! [py "qml"; py "_static"; py "authors"; py "jane_q_doe.txt"] = None
  /\ match snd (set_author_info keep_case sample_cwd jane (py "../_static/authors")
                  sample_fs) with
     | inr block => str_in (py "jane_q_doe.txt") block
     | inl _ => true
     end = false.
Proof.
  split; [intros H; vm_compute in H; discriminate|].
  repeat split; vm_compute; reflexivity.
Qed.

(** *** Instances on the sample inputs *)

Lemma live_code_cell_sample :
  convert_cell ascii_only verbatim (decode_as []) sample_cwd (py "nb") true
    (py "../demonstrations") (py "nb") 1
    (code_cell (py "print(1)") None [execute_result (Lines [py "1"])]) [] sample_fs
  = (sample_fs, inr ([nl; nl] ++ py "print(1)")).
Proof.
  apply (live_code_cell_appends_source_only ascii_only verbatim (decode_as [])
           sample_cwd (py "nb") (py "../demonstrations") (py "nb") 1
           (code_cell (py "print(1)") None [execute_result (Lines [py "1"])])
           [] sample_fs).
  - reflexivity.
  - vm_compute. discriminate.
Defined.

Lemma notebook_without_cells_sample :
  convert_notebook_to_python ascii_only verbatim (decode_as []) sample_cwd (py "nb")
    false (py "../demonstrations") (py "nb") {| cells := None |} sample_fs
  = (sample_fs, inl AssertionError).
Proof.
  apply (proj1 (invalid_notebook_is_rejected ascii_only keep_case verbatim
                  (decode_as []) sample_cwd {| cells := None |}
                  (or_introl eq_refl))).
Defined.

(** A [display_data] line with leading white space is not rendered as the
    [execute_result] path renders it. *)
Lemma display_text_drops_leading_space :
  snd (render_output (decode_as []) sample_cwd (py "nb") (py "../demonstrations")
         (py "nb") (code_cell (py "f()") (Some (py "c1")) []) 0
         (display_text (Lines [py " a"])) ([], 0) sample_fs)
  <> snd (render_output (decode_as []) sample_cwd (py "nb") (py "../demonstrations")
            (py "nb") (code_cell (py "f()") (Some (py "c1")) []) 0
            (execute_result (Lines [py " a"])) ([], 0) sample_fs).
Proof. intros H. vm_compute in H. discriminate. Qed.

(** A [stream] record without text raises nothing: it is passed over. *)
Lemma stream_without_text_raises_nothing :
  snd (render_output (decode_as []) sample_cwd (py "nb") (py "../demonstrations")
         (py "nb") (code_cell (py "f()") (Some (py "c1")) []) 0
         {| output_type := py "stream"; data := None; text := None |}
         (py "f()", 0) sample_fs)
  = inr (py "f()", 0).
Proof. reflexivity. Qed.

Lemma empty_first_cell_sample :
  initial_validations
    {| cells := Some [ {| cell_type := py "markdown"; source := None; id := None;
                          outputs := None |};
                       code_cell (py "print(1)") None [] ] |} sample_fs
  = (sample_fs,
     inr [ {| cell_type := py "markdown"; source := None; id := None;
              outputs := None |};
           code_cell (py "print(1)") None [] ])
  /\ startswith (py "r" ++ triple_quote) ([nl; nl] ++ py "print(1)") = false.
Proof.
  destruct (empty_first_cell_gives_no_header ascii_only verbatim (decode_as [])
              sample_cwd (py "nb") false (py "../demonstrations") (py "nb")
              {| cell_type := py "markdown"; source := None; id := None;
                 outputs := None |}
              [code_cell (py "print(1)") None []] sample_fs eq_refl eq_refl)
    as (Hval & _ & Hdoc).
  split; [exact Hval|].
  apply (Hdoc sample_fs). vm_compute. reflexivity.
Defined.

Lemma image_is_not_written_sample :
  exists fs' e,
    render_output (decode_as [Byte.x68; Byte.x69]) sample_cwd (py "nb")
      (py "../demonstrations") (py "nb")
      (code_cell (py "plot()") (Some (py "c1")) []) 0
      {| output_type := py "display_data";
         data := Some {| text_plain := None; image_png := Some (py "aGk=") |};
         text := None |} ([], 0) sample_fs
    = (fs', inl e)
    /\ no_file_written sample_fs fs'.
Proof.
  apply (image_is_not_written_where_absent (decode_as [Byte.x68; Byte.x69]) sample_cwd
           (py "nb") (py "../demonstrations") (py "nb")
           (code_cell (py "plot()") (Some (py "c1")) []) (py "c1")).
  - reflexivity.
  - vm_compute. reflexivity.
Defined.

(** On the sample file system the exception is [IsADirectoryError], and the
    path of the image is then a directory. *)
Lemma image_path_becomes_a_directory :
  render_output (decode_as [Byte.x68; Byte.x69]) sample_cwd (py "nb")
    (py "../demonstrations") (py "nb")
    (code_cell (py "plot()") (Some (py "c1")) []) 0
    (display_image (py "aGk=")) ([], 0) sample_fs
  = (<[ [py "qml"; py "demonstrations"; py "nb"; py "nb_c1_1.png"] := Dir ]>
       (<[ [py "qml"; py "demonstrations"; py "nb"] := Dir ]> sample_fs),
     inl IsADirectoryError).
Proof. vm_compute. reflexivity. Qed.

(** ** The regular-expression engine *)

Lemma span_nil (p : char -> bool) (s rest : str) : span p s = ([], rest) -> rest = s.
Proof.
  destruct s as [|c s]; simpl; [now intros [= <-]|].
  destruct (p c); [destruct (span p s); discriminate|now intros [= <-]].
Qed.

Lemma span_app (p : char -> bool) (s : str) : fst (span p s) ++ snd (span p s) = s.
Proof.
  induction s as [|c s IH]; simpl; [reflexivity|].
  destruct (p c); [|reflexivity]. destruct (span p s). simpl in *. now rewrite IH.
Qed.

Lemma span_head (p : char -> bool) (s w rest : str) (c : char) :
  span p s = (w, c :: rest) -> p c = false.
Proof.
  revert w. induction s as [|a s IH]; intros w; simpl; [discriminate|].
  destruct (p a) eqn:Ha.
  - destruct (span p s) as [w' r'] eqn:E. intros [= <- ->]. eapply IH. reflexivity.
  - now intros [= <- <- <-].
Qed.

(** When the continuation cannot follow a shorter repetition (the next
    character is still in the class), or accepts the longest one, the greedy
    [+] takes the longest run. *)
Lemma plus_greedy_guarded {R} (p : char -> bool) (k : str -> str -> option R) :
  (forall m c rest, p c = true -> k m (c :: rest) = None) ->
  forall s acc,
    plus_greedy p s acc k
    = let (w, rest) := span p s in if is_nil w then None else k (acc ++ w) rest.
Proof.
  intros Hk s. induction s as [|c s IH]; intros acc; simpl; [reflexivity|].
  destruct (p c) eqn:Hc; [|reflexivity].
  rewrite IH. destruct (span p s) as [w rest] eqn:E. simpl.
  destruct w as [|d w]; simpl.
  - apply span_nil in E. now subst.
  - rewrite <- app_assoc. simpl.
    destruct (k (acc ++ c :: d :: w) rest) eqn:Ek; [reflexivity|].
    destruct s as [|d' s]; [discriminate|]. simpl in E.
    destruct (p d') eqn:Hd; [|discriminate]. now apply Hk.
Qed.

Lemma plus_greedy_accepting {R} (p : char -> bool) (k : str -> str -> option R) :
  (forall m rest, m <> [] -> k m rest <> None) ->
  forall s acc,
    plus_greedy p s acc k
    = let (w, rest) := span p s in if is_nil w then None else k (acc ++ w) rest.
Proof.
  intros Hk s. induction s as [|c s IH]; intros acc; simpl; [reflexivity|].
  destruct (p c) eqn:Hc; [|reflexivity].
  rewrite IH. destruct (span p s) as [w rest] eqn:E. simpl.
  destruct w as [|d w]; simpl.
  - apply span_nil in E. now subst.
  - rewrite <- app_assoc. simpl.
    destruct (k (acc ++ c :: d :: w) rest) eqn:Ek; [reflexivity|].
    exfalso. revert Ek. apply Hk. now destruct acc.
Qed.

Lemma is_nil_app {A} (a b : list A) : is_nil (a ++ b) = is_nil a && is_nil b.
Proof. now destruct a. Qed.

Section FinderFacts.

Variable unicode_isalnum : char -> bool.

Local Abbreviation word := (word unicode_isalnum).

Lemma match_at_tag (adv : bool) (s : str) :
  match match_at (Cat (Lit (py ".. container:: ")) (Grp 1 (Plus word))) adv s with
  | Some (gs, m, rest) =>
      Some (expand [TLit (py ".. "); TGrp 1; TLit (py "::")] gs, is_nil m, rest)
  | None => None
  end
  = lift_find (find_tag unicode_isalnum) adv s.
Proof.
  unfold match_at, lift_find, find_tag. cbn [match_re].
  destruct (startswith (py ".. container:: ") s); [|reflexivity].
  change (List.length (py ".. container:: ")) with 15.
  rewrite plus_greedy_accepting.
  - destruct (span word (skipn 15 s)) as [w rest]. destruct w as [|c w]; [reflexivity|].
    cbn [is_nil app]. rewrite andb_false_r. cbn [expand flat_map group Nat.eqb].
    now rewrite app_nil_r.
  - intros m rest Hm. rewrite is_nil_app, andb_false_r. discriminate.
Qed.

Lemma word_space : word space = false.
Proof. reflexivity. Qed.

Lemma match_at_property (adv : bool) (s : str) :
  match match_at (Cat (Grp 1 (Plus word))
                    (Cat (Lit (py " ")) (Grp 2 (Lit (py ":property="))))) adv s with
  | Some (gs, m, rest) =>
      Some (expand [TGrp 1; TLit (nl :: py "   "); TGrp 2] gs, is_nil m, rest)
  | None => None
  end
  = lift_find (find_property unicode_isalnum) adv s.
Proof.
  unfold match_at, lift_find, find_property. cbn [match_re].
  rewrite plus_greedy_guarded.
  - destruct (span word s) as [w rest] eqn:E. destruct w as [|c w]; [reflexivity|].
    cbn [is_nil app].
    change (py " ") with [space]. change (py " :property=") with (space :: py ":property=").
    destruct rest as [|d rest]; [reflexivity|]. cbn [startswith].
    destruct (N.eqb_spec space d) as [<-|Hd]; [|reflexivity]. cbn [andb].
    change (skipn (List.length [space]) (space :: rest)) with rest.
    destruct (startswith (py ":property=") rest); [|reflexivity].
    rewrite ?is_nil_app. cbn [is_nil andb]. rewrite ?andb_false_r.
    cbn [expand flat_map group Nat.eqb].
    change (List.length (py ":property=")) with 10.
    change (skipn 11 (space :: rest)) with (skipn 10 rest).
    rewrite app_nil_r. reflexivity.
  - intros m c rest Hc.
    change (py " ") with [space]. cbn [startswith].
    destruct (N.eqb_spec space c) as [<-|Hd]; [|reflexivity].
    rewrite word_space in Hc. discriminate.
Qed.

End FinderFacts.

Lemma match_at_alt (adv : bool) (s : str) :
  match match_at (Cat (Lit (py "   :alt: "))
                    (Cat (Grp 1 (Plus dot))
                       (Cat (Lit ([nl; nl] ++ py "   ")) (Grp 2 (Plus dot))))) adv s with
  | Some (gs, m, rest) =>
      Some (expand [TLit (py "   :alt: "); TGrp 1] gs, is_nil m, rest)
  | None => None
  end
  = lift_find find_alt adv s.
Proof.
  unfold match_at, lift_find, find_alt. cbn [match_re].
  destruct (startswith (py "   :alt: ") s); [|reflexivity].
  change (List.length (py "   :alt: ")) with 9.
  rewrite plus_greedy_guarded.
  - destruct (span dot (skipn 9 s)) as [x r1]. destruct x as [|c x]; [reflexivity|].
    cbn [is_nil app].
    change ([nl; nl] ++ py "   ") with (nl :: nl :: py "   ").
    destruct (startswith (nl :: nl :: py "   ") r1); [|reflexivity].
    change (List.length (nl :: nl :: py "   ")) with 5.
    rewrite plus_greedy_accepting.
    + destruct (span dot (skipn 5 r1)) as [y r2]. destruct y as [|d y]; [reflexivity|].
      cbn [is_nil]. rewrite !is_nil_app. cbn [is_nil andb]. rewrite andb_false_r.
      cbn [expand flat_map group Nat.eqb]. now rewrite app_nil_r.
    + intros m rest Hm. rewrite !is_nil_app. cbn [is_nil andb].
      rewrite andb_false_r. discriminate.
  - intros m c rest Hc.
    change ([nl; nl] ++ py "   ") with (nl :: nl :: py "   "). cbn [startswith].
    destruct (N.eqb_spec nl c) as [<-|Hd]; [|reflexivity]. discriminate.
Qed.

(** ** The scan of [re.sub] *)

Lemma scan_ext (f g : bool -> str -> option (str * bool * str)) :
  (forall adv s, f adv s = g adv s) ->
  forall n adv s, scan n f adv s = scan n g adv s.
Proof.
  intros H n. induction n as [|n IH]; intros adv s; simpl; [reflexivity|].
  rewrite H. destruct (g adv s) as [[[out [|]] rest]|]; try now rewrite IH.
  destruct s; [reflexivity|now rewrite IH].
Qed.

Lemma lift_find_some (F : str -> option (str * str)) (adv : bool) (s out rest : str) :
  F s = Some (out, rest) -> lift_find F adv s = Some (out, false, rest).
Proof. unfold lift_find. now intros ->. Qed.

Lemma lift_find_none (F : str -> option (str * str)) (adv : bool) (s : str) :
  F s = None -> lift_find F adv s = None.
Proof. unfold lift_find. now intros ->. Qed.

Section Scan.

Variable F : str -> option (str * str).
Hypothesis F_progresses : progresses F.

Lemma scan_enough_fuel (n m : nat) :
  forall s, List.length s < n -> List.length s < m ->
            scan n (lift_find F) false s = scan m (lift_find F) false s.
Proof.
  revert m. induction n as [|n IH]; intros m s Hn Hm; [lia|].
  destruct m as [|m]; [lia|]. cbn [scan].
  destruct (F s) as [[out rest]|] eqn:E.
  - rewrite (lift_find_some _ _ _ _ _ E). apply F_progresses in E.
    f_equal. apply IH; lia.
  - rewrite (lift_find_none _ _ _ E).
    destruct s as [|c s]; [reflexivity|]. simpl in *. f_equal. apply IH; lia.
Qed.

(** The equation of the scan: replace the match at the head and go on after
    it, or keep one character and go on. *)
Lemma sub_with_eq (s : str) :
  sub_with F s
  = match F s with
    | Some (out, rest) => out ++ sub_with F rest
    | None => match s with
              | [] => []
              | c :: s' => c :: sub_with F s'
              end
    end.
Proof.
  unfold sub_with, scan_fuel at 1.
  replace (2 * List.length s + 2) with (S (2 * List.length s + 1)) by lia.
  cbn [scan].
  destruct (F s) as [[out rest]|] eqn:E.
  - rewrite (lift_find_some _ _ _ _ _ E). apply F_progresses in E.
    f_equal. apply scan_enough_fuel; unfold scan_fuel; lia.
  - rewrite (lift_find_none _ _ _ E).
    destruct s as [|c s]; [reflexivity|]. f_equal.
    apply scan_enough_fuel; unfold scan_fuel; simpl; lia.
Qed.

Lemma sub_with_nil : sub_with F [] = [].
Proof.
  rewrite sub_with_eq. destruct (F []) as [[out rest]|] eqn:E; [|reflexivity].
  apply F_progresses in E. simpl in E. lia.
Qed.

Variable Z : str -> Prop.
Hypothesis F_stops : stops_at_newline Z F.

Lemma find_at_newline (y : str) : Z y -> F (nl :: y) = None.
Proof.
  intros Hy. change (nl :: y) with ([] ++ nl :: y).
  rewrite (F_stops [] y Hy). destruct (F []) as [[out rest]|] eqn:E; [|reflexivity].
  apply F_progresses in E. simpl in E. lia.
Qed.

(** Such a scan works line by line. *)
Lemma sub_with_lines (x y : str) :
  Z y -> sub_with F (x ++ nl :: y) = sub_with F x ++ nl :: sub_with F y.
Proof.
  intros Hy. remember (List.length x) as n eqn:Hn. revert x Hn.
  induction n as [n IH] using lt_wf_ind. intros x Hn.
  rewrite (sub_with_eq (x ++ nl :: y)), (sub_with_eq x), (F_stops _ _ Hy).
  destruct (F x) as [[out rest]|] eqn:E.
  - apply F_progresses in E. rewrite <- app_assoc. f_equal.
    apply (IH (List.length rest)); [lia|reflexivity].
  - destruct x as [|c x]; simpl.
    + reflexivity.
    + f_equal. apply (IH (List.length x)); [simpl in Hn; lia|reflexivity].
Qed.

End Scan.

(** ** Lines *)

Lemma split_lines_nonempty (s : str) : split_lines s <> [].
Proof.
  unfold split_lines. destruct s as [|c s]; simpl; [discriminate|].
  destruct (c =? nl)%N; [discriminate|]. destruct (split_on nl s); discriminate.
Qed.

Lemma split_lines_newline (s : str) : split_lines (nl :: s) = [] :: split_lines s.
Proof. reflexivity. Qed.

Lemma split_lines_cons (c : char) (s : str) :
  c <> nl ->
  split_lines (c :: s)
  = (c :: hd [] (split_lines s)) :: tl (split_lines s).
Proof.
  intros Hc. pose proof (split_lines_nonempty s) as Hne.
  unfold split_lines in *. simpl.
  destruct (N.eqb_spec c nl); [contradiction|].
  destruct (split_on nl s); [contradiction|reflexivity].
Qed.

Lemma line_of_split_lines (s : str) :
  (exists b, s = hd [] (split_lines s) ++ b /\ ends_line b)
  /\ forall l, In l (tl (split_lines s)) ->
               exists a b, s = a ++ nl :: l ++ b /\ ends_line b.
Proof.
  induction s as [|c s [(b & Hb & Hend) IH]].
  - split; [exists []; split; [reflexivity|now left]|]. simpl. contradiction.
  - destruct (N.eq_dec c nl) as [->|Hc].
    + rewrite split_lines_newline. cbn [hd tl]. split.
      * exists (nl :: s). split; [reflexivity|right; eauto].
      * intros l Hl. pose proof (split_lines_nonempty s) as Hne.
        destruct (split_lines s) as [|l0 ls] eqn:E; [contradiction|].
        cbn [hd tl] in *. destruct Hl as [<-|Hl].
        -- exists [], b. split; [simpl; congruence|exact Hend].
        -- destruct (IH l Hl) as (a & b' & -> & Hend').
           exists (nl :: a), b'. split; [reflexivity|exact Hend'].
    + rewrite (split_lines_cons c s Hc). cbn [hd tl]. split.
      * exists b. split; [simpl; congruence|exact Hend].
      * intros l Hl. destruct (IH l Hl) as (a & b' & -> & Hend').
        exists (c :: a), b'. split; [reflexivity|exact Hend'].
Qed.

Lemma in_split_lines_line_of (l s : str) : In l (split_lines s) -> line_of l s.
Proof.
  intros Hl. destruct (line_of_split_lines s) as [Hhd Htl].
  pose proof (split_lines_nonempty s) as Hne.
  destruct (split_lines s) as [|l0 ls]; [contradiction|]. cbn [hd tl] in *.
  destruct Hl as [<-|Hl]; [now left|right; auto].
Qed.

Lemma split_lines_after_newline (a b l : str) :
  In l (split_lines b) -> In l (tl (split_lines (a ++ nl :: b))).
Proof.
  intros Hl. induction a as [|c a IH]; simpl app.
  - now rewrite split_lines_newline.
  - destruct (N.eq_dec c nl) as [->|Hc].
    + rewrite split_lines_newline. cbn [tl].
      destruct (split_lines (a ++ nl :: b)); [contradiction|now right].
    + now rewrite (split_lines_cons c _ Hc).
Qed.

Lemma split_lines_first (l b : str) :
  ~ In nl l -> ends_line b -> hd [] (split_lines (l ++ b)) = l.
Proof.
  intros Hl Hb. induction l as [|c l IH]; simpl app.
  - destruct Hb as [->|[b' ->]]; reflexivity.
  - assert (Hc : c <> nl) by (intros ->; apply Hl; now left).
    rewrite (split_lines_cons c _ Hc). cbn [hd]. f_equal. apply IH.
    intros H. apply Hl. now right.
Qed.

Lemma line_of_in_split_lines (l s : str) :
  ~ In nl l -> line_of l s -> In l (split_lines s).
Proof.
  intros Hl [(b & -> & Hb) | (a & b & -> & Hb)].
  - pose proof (split_lines_first l b Hl Hb) as H.
    pose proof (split_lines_nonempty (l ++ b)) as Hne.
    destruct (split_lines (l ++ b)); [contradiction|]. left. exact H.
  - pose proof (split_lines_after_newline a (l ++ b) l) as H.
    assert (Hin : In l (split_lines (l ++ b))).
    { pose proof (split_lines_first l b Hl Hb) as H1.
      pose proof (split_lines_nonempty (l ++ b)) as Hne.
      destruct (split_lines (l ++ b)); [contradiction|]. left. exact H1. }
    specialize (H Hin).
    destruct (split_lines (a ++ nl :: l ++ b)); [contradiction|now right].
Qed.

(** ** Prefixes, runs and newlines *)

Lemma startswith_length (l x : str) :
  startswith l x = true -> List.length l <= List.length x.
Proof.
  revert x. induction l as [|a l IH]; intros [|b x]; simpl; try lia; try discriminate.
  intros [_ H]%andb_prop. apply IH in H. lia.
Qed.

Lemma startswith_app (l x z : str) :
  startswith l x = true -> startswith l (x ++ z) = true.
Proof.
  revert x. induction l as [|a l IH]; intros [|b x]; simpl; try easy.
  intros [-> H]%andb_prop. now apply IH.
Qed.

(** A literal without newline is not found across a newline. *)
Lemma startswith_newline (l x y : str) :
  forallb (fun c => negb (c =? nl)%N) l = true ->
  startswith l (x ++ nl :: y) = startswith l x.
Proof.
  revert x. induction l as [|a l IH]; intros x Hl; [now destruct x|].
  simpl in Hl. apply andb_prop in Hl as [Ha Hl].
  destruct x as [|b x]; simpl.
  - apply negb_true_iff in Ha. now rewrite Ha.
  - now rewrite IH.
Qed.

(** A literal is not found across the end of [x] when none of its proper
    suffixes begins [z]. *)
Lemma startswith_no_overlap (l x z : str) :
  (forall k, 0 < k < List.length l -> startswith (skipn k l) z = false) ->
  x <> [] ->
  startswith l (x ++ z) = startswith l x.
Proof.
  revert x. induction l as [|a l IH]; intros x Hk Hx; [now destruct x|].
  destruct x as [|b x]; [contradiction|]. simpl. f_equal.
  destruct x as [|b' x].
  - destruct l as [|a' l]; [reflexivity|].
    assert (H1 : startswith (a' :: l) z = false) by (apply (Hk 1); simpl; lia).
    simpl app. now rewrite H1.
  - apply IH; [|discriminate]. intros k Hlt. apply (Hk (S k)). simpl. lia.
Qed.

Lemma skipn_app_le {A} (n : nat) (x z : list A) :
  n <= List.length x -> skipn n (x ++ z) = skipn n x ++ z.
Proof.
  intros H. rewrite skipn_app. replace (n - List.length x) with 0 by lia.
  reflexivity.
Qed.

Lemma span_stop (p : char -> bool) (x y : str) (c : char) :
  p c = false ->
  span p (x ++ c :: y) = (fst (span p x), snd (span p x) ++ c :: y).
Proof.
  intros Hc. induction x as [|a x IH]; simpl.
  - now rewrite Hc.
  - destruct (p a); [|reflexivity]. rewrite IH. now destruct (span p x).
Qed.

Lemma span_whole (p : char -> bool) (x z : str) :
  snd (span p x) = [] ->
  span p (x ++ z) = (x ++ fst (span p z), snd (span p z)).
Proof.
  induction x as [|a x IH]; simpl.
  - intros _. now destruct (span p z).
  - destruct (p a); [|discriminate]. destruct (span p x) as [w r] eqn:E. simpl.
    intros ->. rewrite IH by reflexivity. reflexivity.
Qed.

Lemma span_rest_length (p : char -> bool) (s : str) :
  List.length (snd (span p s)) + List.length (fst (span p s)) = List.length s.
Proof.
  rewrite <- (span_app p s) at 3. rewrite length_app. lia.
Qed.

(** ** The three finders *)

Section FinderProperties.

Variable unicode_isalnum : char -> bool.

Local Abbreviation word := (word unicode_isalnum).
Local Abbreviation tag_finder := (find_tag unicode_isalnum).
Local Abbreviation property_finder := (find_property unicode_isalnum).

Lemma update_sphinx_tags_scan (s : str) :
  update_sphinx_tags unicode_isalnum s = sub_with tag_finder s.
Proof. apply scan_ext. intros adv t. apply match_at_tag. Qed.

Lemma add_property_newline_scan (s : str) :
  add_property_newline unicode_isalnum s = sub_with property_finder s.
Proof. apply scan_ext. intros adv t. apply match_at_property. Qed.

Lemma fix_image_alt_scan (s : str) :
  fix_image_alt_tag_as_text s = sub_with find_alt s.
Proof. apply scan_ext. intros adv t. apply match_at_alt. Qed.

Lemma find_tag_progresses : progresses tag_finder.
Proof.
  intros s out rest. unfold find_tag.
  destruct (startswith _ s) eqn:Hs; [|discriminate].
  pose proof (span_rest_length word (skipn 15 s)) as Hlen.
  destruct (span word (skipn 15 s)) as [w r]. destruct w; [discriminate|].
  intros [= _ <-]. simpl in Hlen. rewrite length_skipn in Hlen. lia.
Qed.

Lemma find_property_progresses : progresses property_finder.
Proof.
  intros s out rest. unfold find_property.
  pose proof (span_rest_length word s) as Hlen.
  destruct (span word s) as [w r]. destruct w; [discriminate|].
  destruct (startswith _ r); [|discriminate].
  intros [= _ <-]. simpl in Hlen. rewrite length_skipn. lia.
Qed.

Lemma find_alt_progresses : progresses find_alt.
Proof.
  intros s out rest. unfold find_alt.
  destruct (startswith _ s) eqn:Hs; [|discriminate].
  pose proof (span_rest_length dot (skipn 9 s)) as Hlen1.
  destruct (span dot (skipn 9 s)) as [x r1]. destruct x; [discriminate|].
  destruct (startswith _ r1); [|discriminate].
  pose proof (span_rest_length dot (skipn 5 r1)) as Hlen2.
  destruct (span dot (skipn 5 r1)) as [y r2]. destruct y; [discriminate|].
  intros [= _ <-]. simpl in *. rewrite length_skipn in *. lia.
Qed.

Lemma word_newline : word nl = false.
Proof. reflexivity. Qed.

Lemma find_tag_stops : stops_at_newline any_text tag_finder.
Proof.
  intros x y _. unfold find_tag.
  rewrite startswith_newline by reflexivity.
  destruct (startswith _ x) eqn:Hx; [|reflexivity].
  apply startswith_length in Hx. change (List.length (py ".. container:: ")) with 15 in Hx.
  rewrite (skipn_app_le 15 x _ Hx), (span_stop _ _ _ _ word_newline).
  destruct (span word (skipn 15 x)) as [w r]. cbn [fst snd].
  now destruct w.
Qed.

Lemma find_property_stops : stops_at_newline any_text property_finder.
Proof.
  intros x y _. unfold find_property.
  rewrite (span_stop _ _ _ _ word_newline).
  destruct (span word x) as [w r]. cbn [fst snd]. destruct w; [reflexivity|].
  cbn [is_nil]. rewrite startswith_newline by reflexivity.
  destruct (startswith _ r) eqn:Hr; [|reflexivity].
  apply startswith_length in Hr. change (List.length (py " :property=")) with 11 in Hr.
  now rewrite (skipn_app_le 11 r _ Hr).
Qed.

End FinderProperties.

(** A whole line is rewritten on its own. *)
Lemma sub_with_line (F : str -> option (str * str)) (l s : str) :
  progresses F -> stops_at_newline any_text F ->
  line_of l s -> line_of (sub_with F l) (sub_with F s).
Proof.
  intros Hp Hs.
  assert (Hend : forall b, ends_line b ->
            exists b', sub_with F (l ++ b) = sub_with F l ++ b' /\ ends_line b').
  { intros b [->|[b' ->]].
    - exists []. rewrite !app_nil_r. split; [reflexivity|now left].
    - exists (nl :: sub_with F b'). split; [|right; eauto].
      now apply (sub_with_lines F Hp any_text Hs). }
  intros [(b & -> & Hb) | (a & b & -> & Hb)].
  - destruct (Hend b Hb) as (b' & -> & Hb'). left. eauto.
  - rewrite (sub_with_lines F Hp any_text Hs) by exact I.
    destruct (Hend b Hb) as (b' & -> & Hb'). right. eauto.
Qed.

Lemma dot_newline : dot nl = false.
Proof. reflexivity. Qed.

(** The blank line and the indented line that the alt pattern removes
    cannot be a newline followed by text that starts a line. *)
Lemma alt_gap_stops (r z : str) (c : char) :
  c <> nl -> c <> space ->
  startswith (nl :: nl :: py "   ") (r ++ nl :: c :: z)
  = startswith (nl :: nl :: py "   ") r.
Proof.
  intros Hnl Hsp. destruct r as [|a r].
  - cbn [app startswith]. rewrite N.eqb_refl.
    destruct (N.eqb_spec nl c); [congruence|reflexivity].
  - apply startswith_no_overlap; [|discriminate].
    intros k Hk. change (py "   ") with [space; space; space] in *.
    cbn [List.length] in Hk.
    destruct k as [|[|[|[|[|k]]]]]; try lia; try reflexivity.
    change (skipn 1 [nl; nl; space; space; space]) with [nl; space; space; space].
    cbn [startswith]. rewrite N.eqb_refl.
    destruct (N.eqb_spec space c); [congruence|reflexivity].
Qed.

Lemma find_alt_stops : stops_at_newline begins_with_text find_alt.
Proof.
  intros x y (c & z & -> & Hnl & Hsp). unfold find_alt.
  rewrite startswith_newline by reflexivity.
  destruct (startswith _ x) eqn:Hx; [|reflexivity].
  apply startswith_length in Hx. change (List.length (py "   :alt: ")) with 9 in Hx.
  rewrite (skipn_app_le 9 x _ Hx), (span_stop _ _ _ _ dot_newline).
  destruct (span dot (skipn 9 x)) as [w r1]. cbn [fst snd].
  destruct w; [reflexivity|]. cbn [is_nil].
  rewrite (alt_gap_stops r1 z c Hnl Hsp).
  destruct (startswith _ r1) eqn:Hr; [|reflexivity].
  apply startswith_length in Hr.
  change (List.length (nl :: nl :: py "   ")) with 5 in Hr.
  rewrite (skipn_app_le 5 r1 _ Hr), (span_stop _ _ _ _ dot_newline).
  destruct (span dot (skipn 5 r1)) as [y r2]. cbn [fst snd].
  now destruct y.
Qed.

Lemma find_alt_needs_prefix (s : str) :
  startswith (py "   :alt: ") s = false -> find_alt s = None.
Proof. unfold find_alt. now intros ->. Qed.

(** Text in which the alt marker does not occur is copied as it is. *)
Lemma alt_scan_copies (t b : str) :
  str_in (py "   :alt: ") t = false ->
  ends_line b ->
  sub_with find_alt (t ++ b) = t ++ sub_with find_alt b.
Proof.
  intros Ht Hb. induction t as [|c t IH]; [reflexivity|].
  simpl in Ht. apply orb_false_elim in Ht as [Hhead Ht].
  rewrite (sub_with_eq find_alt find_alt_progresses), find_alt_needs_prefix.
  - simpl. f_equal. now apply IH.
  - destruct Hb as [->|[b' ->]].
    + now rewrite app_nil_r.
    + now rewrite startswith_newline by reflexivity.
Qed.

Lemma alt_scan_ends_line (b : str) :
  ends_line b -> ends_line (sub_with find_alt b).
Proof.
  intros [->|[b' ->]].
  - left. apply (sub_with_nil find_alt find_alt_progresses).
  - right. rewrite (sub_with_eq find_alt find_alt_progresses).
    rewrite find_alt_needs_prefix by reflexivity. eauto.
Qed.

(** A line that starts with text and does not contain the alt marker stays
    a line. *)
Lemma alt_scan_keeps_line (l s : str) :
  begins_with_text l ->
  str_in (py "   :alt: ") l = false ->
  line_of l s -> line_of l (sub_with find_alt s).
Proof.
  intros Hl Halt [(b & -> & Hb) | (a & b & -> & Hb)].
  - left. exists (sub_with find_alt b).
    split; [now apply alt_scan_copies|now apply alt_scan_ends_line].
  - right. exists (sub_with find_alt a), (sub_with find_alt b).
    split; [|now apply alt_scan_ends_line].
    rewrite (sub_with_lines find_alt find_alt_progresses begins_with_text find_alt_stops).
    + now rewrite alt_scan_copies.
    + destruct Hl as (c & z & -> & Hc). exists c, (z ++ b). now split.
Qed.

(** A finder that is local to a line rewrites a text that ends a line and
    what follows it independently. *)
Lemma sub_with_whole_line (F : str -> option (str * str)) (l b : str) :
  progresses F -> stops_at_newline any_text F ->
  ends_line b ->
  sub_with F (l ++ b) = sub_with F l ++ sub_with F b.
Proof.
  intros Hp Hs [->|[b' ->]].
  - now rewrite (sub_with_nil F Hp), !app_nil_r.
  - rewrite (sub_with_lines F Hp any_text Hs l b' I).
    change (nl :: b') with ([] ++ nl :: b').
    now rewrite (sub_with_lines F Hp any_text Hs [] b' I), (sub_with_nil F Hp).
Qed.

Lemma sub_with_ends_line (F : str -> option (str * str)) (b : str) :
  progresses F -> stops_at_newline any_text F ->
  ends_line b -> ends_line (sub_with F b).
Proof.
  intros Hp Hs [->|[b' ->]].
  - left. apply (sub_with_nil F Hp).
  - right. change (nl :: b') with ([] ++ nl :: b').
    rewrite (sub_with_lines F Hp any_text Hs [] b' I), (sub_with_nil F Hp). eauto.
Qed.

(** A text without newline occurs in two lines when it occurs in one of
    them. *)
Lemma str_in_newline (l x y : str) :
  l <> [] -> forallb dot l = true ->
  str_in l (x ++ nl :: y) = str_in l x || str_in l y.
Proof.
  intros Hne Hl.
  assert (Hhead : forall z, startswith l (nl :: z) = false).
  { intros z. destruct l as [|c l]; [contradiction|]. simpl in *.
    apply andb_prop in Hl as [Hc _]. unfold dot in Hc.
    apply negb_true_iff in Hc. now rewrite Hc. }
  assert (Hnil : startswith l [] = false) by (destruct l; [contradiction|reflexivity]).
  induction x as [|c x IH].
  - cbn [app str_in]. now rewrite Hhead, Hnil.
  - cbn [app str_in]. rewrite IH.
    change (c :: x ++ nl :: y) with ((c :: x) ++ nl :: y).
    rewrite (startswith_newline l (c :: x) y Hl). now rewrite orb_assoc.
Qed.

Section PostProcessorFacts.

Variable unicode_isalnum : char -> bool.

Local Abbreviation word := (word unicode_isalnum).
Local Abbreviation tag_finder := (find_tag unicode_isalnum).
Local Abbreviation property_finder := (find_property unicode_isalnum).

(** *** Tag normalisation *)

(** The line [.. container:: note] is rewritten where it stands, and the
    text around it as it is without the line. *)
Lemma container_note_in_place (a b : str) :
  ends_line b ->
  post_process unicode_isalnum (py ".. container:: note" ++ b)
  = py ".. note::" ++ post_process unicode_isalnum b
  /\ post_process unicode_isalnum (a ++ nl :: py ".. container:: note" ++ b)
     = post_process unicode_isalnum a
       ++ nl :: py ".. note::" ++ post_process unicode_isalnum b.
Proof.
  intros Hb. unfold post_process.
  rewrite !update_sphinx_tags_scan, !add_property_newline_scan, !fix_image_alt_scan.
  pose proof (find_tag_progresses unicode_isalnum) as Htp.
  pose proof (find_tag_stops unicode_isalnum) as Hts.
  pose proof (find_property_progresses unicode_isalnum) as Hpp.
  pose proof (find_property_stops unicode_isalnum) as Hps.
  pose proof (sub_with_ends_line _ _ Htp Hts Hb) as Hb1.
  pose proof (sub_with_ends_line _ _ Hpp Hps Hb1) as Hb2.
  assert (Hline : sub_with find_alt
                    (sub_with property_finder
                       (sub_with tag_finder (py ".. container:: note" ++ b)))
                  = py ".. note::"
                    ++ sub_with find_alt (sub_with property_finder (sub_with tag_finder b))).
  { rewrite (sub_with_whole_line _ _ _ Htp Hts Hb).
    change (sub_with tag_finder (py ".. container:: note")) with (py ".. note::").
    rewrite (sub_with_whole_line _ _ _ Hpp Hps Hb1).
    change (sub_with property_finder (py ".. note::")) with (py ".. note::").
    now apply alt_scan_copies. }
  split; [exact Hline|].
  rewrite (sub_with_lines _ Htp any_text Hts a _ I).
  rewrite (sub_with_lines _ Hpp any_text Hps _ _ I).
  rewrite (sub_with_lines _ find_alt_progresses begins_with_text find_alt_stops).
  - now rewrite Hline.
  - rewrite (sub_with_whole_line _ _ _ Htp Hts Hb).
    change (sub_with tag_finder (py ".. container:: note")) with (py ".. note::").
    rewrite (sub_with_whole_line _ _ _ Hpp Hps Hb1).
    change (sub_with property_finder (py ".. note::")) with (py ".. note::").
    exists 46%N. eexists. repeat split; discriminate.
Qed.

(** C8.  A fragment that has the line [.. container:: note] is rewritten to a
    fragment that has the line [.. note::].  The line is rewritten where it
    stands, to [.. note::] and nothing else, and the text before and after it
    as it is without the line: nothing of the line's [container::] is left,
    and the fragment has no [container::] at all when the rewritten text
    around the line has none. *)
Theorem container_note_line_becomes_note :
  (forall rst,
      In (py ".. container:: note") (split_lines rst) ->
      In (py ".. note::") (split_lines (post_process unicode_isalnum rst)))
  /\ post_process unicode_isalnum (py ".. container:: note") = py ".. note::"
  /\ (forall a b,
        ends_line b ->
        post_process unicode_isalnum (py ".. container:: note" ++ b)
        = py ".. note::" ++ post_process unicode_isalnum b
        /\ post_process unicode_isalnum (a ++ nl :: py ".. container:: note" ++ b)
           = post_process unicode_isalnum a
             ++ nl :: py ".. note::" ++ post_process unicode_isalnum b)
  /\ (forall a b,
        ends_line b ->
        str_in (py "container::") (post_process unicode_isalnum a) = false ->
        str_in (py "container::") (post_process unicode_isalnum b) = false ->
        str_in (py "container::")
          (post_process unicode_isalnum (py ".. container:: note" ++ b)) = false
        /\ str_in (py "container::")
             (post_process unicode_isalnum (a ++ nl :: py ".. container:: note" ++ b))
           = false).
Proof.
  split; [|split; [vm_compute; reflexivity|split; [exact container_note_in_place|]]].
  - intros rst Hin. unfold post_process.
    rewrite update_sphinx_tags_scan, add_property_newline_scan, fix_image_alt_scan.
    apply line_of_in_split_lines; [vm_compute; intuition discriminate|].
    apply alt_scan_keeps_line;
      [exists 46%N, (py ". note::"); repeat split; discriminate|reflexivity|].
    change (py ".. note::") with (sub_with property_finder (py ".. note::")).
    apply sub_with_line;
      [apply find_property_progresses|apply find_property_stops|].
    change (py ".. note::") with (sub_with tag_finder (py ".. container:: note")).
    apply sub_with_line; [apply find_tag_progresses|apply find_tag_stops|].
    now apply in_split_lines_line_of.
  - intros a b Hb Ha Hrest.
    destruct (container_note_in_place a b Hb) as [-> ->].
    assert (Hline : str_in (py "container::")
                      (py ".. note::" ++ post_process unicode_isalnum b) = false).
    { assert (Hb' : ends_line (post_process unicode_isalnum b)).
      { unfold post_process.
        rewrite update_sphinx_tags_scan, add_property_newline_scan, fix_image_alt_scan.
        apply alt_scan_ends_line.
        apply sub_with_ends_line;
          [apply find_property_progresses|apply find_property_stops|].
        now apply sub_with_ends_line; [apply find_tag_progresses|apply find_tag_stops|]. }
      destruct Hb' as [E|[b' E]]; rewrite E in *.
      - reflexivity.
      - change (nl :: b') with ([] ++ nl :: b') in Hrest.
        rewrite str_in_newline in Hrest by (discriminate || reflexivity).
        apply orb_false_elim in Hrest as [_ Hrest].
        rewrite str_in_newline by (discriminate || reflexivity).
        now rewrite Hrest. }
    split; [exact Hline|].
    rewrite str_in_newline by (discriminate || reflexivity).
    now rewrite Ha, Hline.
Qed.

(** *** Attribute split *)

Lemma property_scan_word (t : str) :
  snd (span word t) = [] -> sub_with property_finder t = t.
Proof.
  induction t as [|c t IH]; intros Ht;
    rewrite (sub_with_eq property_finder (find_property_progresses _));
    unfold find_property.
  - reflexivity.
  - destruct (span word (c :: t)) as [w r] eqn:E. simpl in Ht. subst r.
    destruct w; [|cbn [is_nil startswith]].
    + f_equal. apply IH. simpl in E. destruct (word c); [|discriminate].
      destruct (span word t); discriminate.
    + change (py " :property=") with (space :: py ":property=").
      cbn [startswith]. f_equal. apply IH. simpl in E.
      destruct (word c); [|discriminate]. now destruct (span word t); inversion E.
Qed.

Lemma property_marker_no_overlap (k : nat) :
  0 < k < List.length (py " :property=") ->
  startswith (skipn k (py " :property=")) (py "foo :property=bar") = false.
Proof.
  intros Hk. do 11 (destruct k as [|k]; [try lia; reflexivity|]).
  simpl in Hk. lia.
Qed.

(** Before the text [foo :property=bar], a match that does not reach the
    end of the string is found as it is without that text. *)
Lemma find_property_before (t : str) :
  snd (span word t) <> [] ->
  find_property unicode_isalnum (t ++ py "foo :property=bar")
  = match find_property unicode_isalnum t with
    | Some (out, rest) => Some (out, rest ++ py "foo :property=bar")
    | None => None
    end.
Proof.
  intros Hr. unfold find_property.
  destruct (span word t) as [w r] eqn:E. cbn [snd] in Hr.
  destruct r as [|d r]; [contradiction|].
  pose proof (span_head _ _ _ _ _ E) as Hd.
  pose proof (span_app word t) as Ht. rewrite E in Ht. cbn [fst snd] in Ht.
  rewrite <- Ht at 1. rewrite <- app_assoc. simpl app.
  rewrite (span_stop word w (r ++ py "foo :property=bar") d Hd).
  assert (Hw : span word w = (w, [])).
  { clear -E. revert w E. induction t as [|a t IH]; intros w; simpl.
    - now intros [= <-].
    - destruct (word a) eqn:Ha; [|now intros [= <-]].
      destruct (span word t) as [w' r'] eqn:E'. intros [= <- ->].
      simpl. rewrite Ha. now rewrite (IH w' eq_refl). }
  rewrite Hw. cbn [fst snd app]. destruct w; [reflexivity|]. cbn [is_nil].
  change (d :: r ++ py "foo :property=bar") with ((d :: r) ++ py "foo :property=bar").
  rewrite (startswith_no_overlap _ (d :: r) _ property_marker_no_overlap)
    by discriminate.
  destruct (startswith _ (d :: r)) eqn:Hs; [|reflexivity].
  apply startswith_length in Hs. change (List.length (py " :property=")) with 11 in Hs.
  now rewrite (skipn_app_le 11 (d :: r) _ Hs).
Qed.

(** C9.  In a text that ends in [foo :property=bar], the attribute split
    rewrites that end to [foo], a newline and [   :property=bar], and what
    precedes it as it would without that end: the marker is split once.  The
    text [foo :property=bar] alone becomes these two lines. *)
Theorem property_marker_is_split_off (t : str) :
  add_property_newline unicode_isalnum (t ++ py "foo :property=bar")
  = add_property_newline unicode_isalnum t
    ++ py "foo" ++ nl :: py "   :property=bar"
  /\ split_lines (add_property_newline unicode_isalnum (py "foo :property=bar"))
     = [py "foo"; py "   :property=bar"].
Proof.
  split; [|vm_compute; reflexivity].
  rewrite !add_property_newline_scan.
  remember (List.length t) as n eqn:Hn. revert t Hn.
  induction n as [n IH] using lt_wf_ind. intros t Hn.
  destruct (snd (span word t)) as [|d r] eqn:Hr.
  - rewrite (property_scan_word t Hr).
    rewrite (sub_with_eq property_finder (find_property_progresses _)).
    unfold find_property. rewrite (span_whole word t _ Hr).
    change (span word (py "foo :property=bar")) with (py "foo", py " :property=bar").
    cbn [fst snd]. rewrite is_nil_app. change (is_nil (py "foo")) with false.
    rewrite andb_false_r.
    change (startswith (py " :property=") (py " :property=bar")) with true. cbv iota.
    change (skipn 11 (py " :property=bar")) with (py "bar").
    change (sub_with property_finder (py "bar")) with (py "bar").
    now rewrite <- !app_assoc.
  - assert (Hne : snd (span word t) <> []) by (rewrite Hr; discriminate).
    rewrite (sub_with_eq property_finder (find_property_progresses _)
               (t ++ py "foo :property=bar")).
    rewrite (sub_with_eq property_finder (find_property_progresses _) t).
    rewrite (find_property_before t Hne).
    destruct (find_property unicode_isalnum t) as [[out rest]|] eqn:E.
    + apply find_property_progresses in E. rewrite <- app_assoc. f_equal.
      apply (IH (List.length rest)); [lia|reflexivity].
    + destruct t as [|c t]; [simpl in Hr; discriminate|].
      simpl. f_equal. apply (IH (List.length t)); [simpl in Hn; lia|reflexivity].
Qed.

End PostProcessorFacts.

(** *** Instances of the post-processor on sample fragments *)

Lemma container_note_sample :
  In (py ".. note::") (split_lines (post_process ascii_only sample_fragment)).
Proof.
  apply (proj1 (container_note_line_becomes_note ascii_only) sample_fragment).
  vm_compute. left. reflexivity.
Defined.

(** A container without a tag elsewhere in the fragment is another
    construct: the pattern does not match it and it is left as it stands,
    with its [container::]. *)
Lemma bare_container_survives :
  In (py ".. container:: note") (split_lines sample_fragment)
  /\ str_in (py "container::") (post_process ascii_only sample_fragment) = true.
Proof. split; [vm_compute; left; reflexivity|vm_compute; reflexivity]. Qed.

(** The scan does not look again at what it wrote: a tag that is itself
    [container] leaves a new [.. container:: note] behind. *)
Lemma tag_scan_is_single_pass :
  update_sphinx_tags ascii_only (py ".. container:: container note")
  = py ".. container:: note".
Proof. vm_compute. reflexivity. Qed.

(** After tag normalisation the word before the marker can end in [::], and
    then the marker is not split. *)
Lemma marker_after_a_rewritten_tag :
  post_process ascii_only (py ".. container:: foo :property=bar")
  = py ".. foo:: :property=bar".
Proof. vm_compute. reflexivity. Qed.

(** * Further properties of the post-processor *)

Lemma str_in_suffix (l a b : str) : str_in l (a ++ b) = false -> str_in l b = false.
Proof.
  induction a as [|c a IH]; [easy|]. simpl.
  intros [_ H]%orb_false_elim. auto.
Qed.

Lemma str_in_head (l s : str) : str_in l s = false -> startswith l s = false.
Proof. destruct s; simpl; [now rewrite orb_false_r|now intros [H _]%orb_false_elim]. Qed.

(** A scan whose finder finds nothing in any suffix copies its input. *)
Lemma sub_with_no_match (F : str -> option (str * str)) (s : str) :
  progresses F ->
  (forall a b, s = a ++ b -> F b = None) ->
  sub_with F s = s.
Proof.
  intros Hp. induction s as [|c s IH]; intros Hnone.
  - apply (sub_with_nil F Hp).
  - rewrite (sub_with_eq F Hp), (Hnone [] (c :: s) eq_refl). f_equal.
    apply IH. intros a b ->. apply (Hnone (c :: a) b). reflexivity.
Qed.

Section UntouchedText.

Variable unicode_isalnum : char -> bool.

Local Abbreviation word := (word unicode_isalnum).

Lemma tags_untouched (s : str) :
  str_in (py ".. container:: ") s = false -> update_sphinx_tags unicode_isalnum s = s.
Proof.
  intros H. rewrite update_sphinx_tags_scan.
  apply sub_with_no_match; [apply find_tag_progresses|].
  intros a b ->. apply str_in_suffix, str_in_head in H.
  unfold find_tag. now rewrite H.
Qed.

Lemma property_untouched (s : str) :
  str_in (py " :property=") s = false -> add_property_newline unicode_isalnum s = s.
Proof.
  intros H. rewrite add_property_newline_scan.
  apply sub_with_no_match; [apply find_property_progresses|].
  intros a b ->. apply str_in_suffix in H.
  pose proof (span_app word b) as Hb. unfold find_property.
  destruct (span word b) as [w r]. cbn [fst snd] in Hb. rewrite <- Hb in H.
  apply str_in_suffix, str_in_head in H. rewrite H. now destruct (is_nil w).
Qed.

Lemma alt_untouched (s : str) :
  str_in (py "   :alt: ") s = false -> fix_image_alt_tag_as_text s = s.
Proof.
  intros H. rewrite fix_image_alt_scan.
  apply sub_with_no_match; [apply find_alt_progresses|].
  intros a b ->. apply str_in_suffix, str_in_head in H.
  now apply find_alt_needs_prefix.
Qed.

(** X1.  Each rewrite leaves alone a text in which its marker does not occur
    ([.. container:: ], [ :property=], [   :alt: ]); a fragment with none of
    the three comes out of the post-processing as it went in. *)
Theorem post_process_without_markers (rst : str) :
  str_in (py ".. container:: ") rst = false ->
  str_in (py " :property=") rst = false ->
  str_in (py "   :alt: ") rst = false ->
  update_sphinx_tags unicode_isalnum rst = rst
  /\ add_property_newline unicode_isalnum rst = rst
  /\ fix_image_alt_tag_as_text rst = rst
  /\ post_process unicode_isalnum rst = rst.
Proof.
  intros Ht Hp Ha. unfold post_process.
  rewrite (tags_untouched rst Ht), (property_untouched rst Hp), (alt_untouched rst Ha).
  auto.
Qed.

(** X2.  Tag normalisation and the attribute split work line by line: the
    text before a newline and the text after it are rewritten independently
    and the newline stays. *)
Theorem tag_and_property_rewrites_are_line_local (x y : str) :
  update_sphinx_tags unicode_isalnum (x ++ nl :: y)
  = update_sphinx_tags unicode_isalnum x ++ nl :: update_sphinx_tags unicode_isalnum y
  /\ add_property_newline unicode_isalnum (x ++ nl :: y)
     = add_property_newline unicode_isalnum x
       ++ nl :: add_property_newline unicode_isalnum y.
Proof.
  rewrite !update_sphinx_tags_scan, !add_property_newline_scan. split.
  - apply (sub_with_lines _ (find_tag_progresses _) any_text (find_tag_stops _)).
    exact I.
  - apply (sub_with_lines _ (find_property_progresses _) any_text
             (find_property_stops _)).
    exact I.
Qed.

Lemma span_all (p : char -> bool) (w : str) :
  forallb p w = true -> span p w = (w, []).
Proof.
  induction w as [|c w IH]; simpl; [reflexivity|].
  intros [-> Hw]%andb_prop. now rewrite (IH Hw).
Qed.

Lemma span_run (p : char -> bool) (w rest : str) :
  forallb p w = true ->
  match rest with [] => true | c :: _ => negb (p c) end = true ->
  span p (w ++ rest) = (w, rest).
Proof.
  intros Hw Hrest. destruct rest as [|c rest].
  - rewrite app_nil_r. now apply span_all.
  - apply negb_true_iff in Hrest. rewrite (span_stop p w rest c Hrest).
    now rewrite (span_all p w Hw).
Qed.

Lemma startswith_self (l s : str) : startswith l (l ++ s) = true.
Proof. induction l as [|c l IH]; simpl; [reflexivity|]. now rewrite N.eqb_refl. Qed.

(** X3.  A tagged container with any tag: [.. container:: TAG], where [TAG]
    is a run of word characters that ends there, becomes [.. TAG::] with the
    tag as it was, and the scan goes on after it. *)
Theorem tagged_container_is_renamed (tag rest : str) :
  tag <> [] ->
  forallb word tag = true ->
  match rest with [] => true | c :: _ => negb (word c) end = true ->
  update_sphinx_tags unicode_isalnum (py ".. container:: " ++ tag ++ rest)
  = py ".. " ++ tag ++ py "::" ++ update_sphinx_tags unicode_isalnum rest.
Proof.
  intros Hne Htag Hrest. rewrite !update_sphinx_tags_scan.
  rewrite (sub_with_eq _ (find_tag_progresses _)). unfold find_tag at 1.
  rewrite startswith_self.
  rewrite (skipn_app_le 15 (py ".. container:: ")) by (vm_compute; lia).
  change (skipn 15 (py ".. container:: ")) with (@nil char). cbn [app].
  rewrite (span_run word tag rest Htag Hrest).
  destruct tag; [contradiction|]. cbn [is_nil]. now rewrite <- !app_assoc.
Qed.

End UntouchedText.

(** ** The alt pattern between two lines *)

Lemma no_final_newline_suffix (u v : str) :
  (forall q, u ++ v <> q ++ [nl]) -> forall q, v <> q ++ [nl].
Proof. intros H q ->. apply (H (u ++ q)). now rewrite app_assoc. Qed.

(** What follows a match of the alt pattern is an end of the string. *)
Lemma find_alt_suffix (s out rest : str) :
  find_alt s = Some (out, rest) -> exists u, s = u ++ rest.
Proof.
  unfold find_alt. destruct (startswith _ s); [|discriminate].
  pose proof (span_app dot (skipn 9 s)) as H1.
  destruct (span dot (skipn 9 s)) as [x r1]. cbn [fst snd] in H1.
  destruct (is_nil x); [discriminate|].
  destruct (startswith _ r1); [|discriminate].
  pose proof (span_app dot (skipn 5 r1)) as H2.
  destruct (span dot (skipn 5 r1)) as [y r2]. cbn [fst snd] in H2.
  destruct (is_nil y); [discriminate|]. intros [= _ <-].
  exists (firstn 9 s ++ x ++ firstn 5 r1 ++ y).
  rewrite <- !app_assoc, H2, (firstn_skipn 5 r1), H1. now rewrite firstn_skipn.
Qed.

(** The blank line and the indent of the alt pattern are not found across a
    single newline. *)
Lemma alt_gap_between (r t : str) :
  (forall q, r <> q ++ [nl]) -> (forall t', t <> nl :: t') ->
  startswith (nl :: nl :: py "   ") (r ++ nl :: t)
  = startswith (nl :: nl :: py "   ") r.
Proof.
  intros Hr Ht. change (py "   ") with [space; space; space].
  destruct r as [|a [|b [|c [|d [|e r]]]]].
  - cbn [app startswith]. rewrite N.eqb_refl.
    destruct t as [|c t]; [reflexivity|]. cbn [startswith andb].
    destruct (N.eqb_spec nl c) as [<-|]; [|reflexivity]. now destruct (Ht t).
  - cbn [app startswith]. destruct (N.eqb_spec nl a) as [<-|]; [|reflexivity].
    now destruct (Hr []).
  - cbn [app startswith]. destruct (N.eqb_spec nl b) as [<-|];
      [now destruct (Hr [a])|now rewrite !andb_false_r].
  - cbn [app startswith]. change (space =? nl)%N with false.
    now rewrite !andb_false_r.
  - cbn [app startswith]. change (space =? nl)%N with false.
    now rewrite !andb_false_r.
  - reflexivity.
Qed.

Lemma find_alt_between (x t : str) :
  (forall q, x <> q ++ [nl]) -> (forall t', t <> nl :: t') ->
  find_alt (x ++ nl :: t)
  = match find_alt x with
    | Some (out, rest) => Some (out, rest ++ nl :: t)
    | None => None
    end.
Proof.
  intros Hx Ht. unfold find_alt.
  rewrite startswith_newline by reflexivity.
  destruct (startswith _ x) eqn:Hs; [|reflexivity].
  apply startswith_length in Hs. change (List.length (py "   :alt: ")) with 9 in Hs.
  rewrite (skipn_app_le 9 x _ Hs), (span_stop _ _ _ _ dot_newline).
  pose proof (span_app dot (skipn 9 x)) as H1.
  destruct (span dot (skipn 9 x)) as [w r1]. cbn [fst snd] in *.
  destruct w as [|c w]; [reflexivity|]. cbn [is_nil].
  assert (Hr1 : forall q, r1 <> q ++ [nl]).
  { apply (no_final_newline_suffix (firstn 9 x ++ c :: w)).
    rewrite <- app_assoc, H1, firstn_skipn. exact Hx. }
  rewrite (alt_gap_between r1 t Hr1 Ht).
  destruct (startswith _ r1) eqn:Hr; [|reflexivity].
  apply startswith_length in Hr.
  change (List.length (nl :: nl :: py "   ")) with 5 in Hr.
  rewrite (skipn_app_le 5 r1 _ Hr), (span_stop _ _ _ _ dot_newline).
  destruct (span dot (skipn 5 r1)) as [y r2]. cbn [fst snd].
  now destruct y.
Qed.

(** The alt rewrite does not reach across a single newline. *)
Lemma alt_scan_between (x t : str) :
  (forall q, x <> q ++ [nl]) -> (forall t', t <> nl :: t') ->
  sub_with find_alt (x ++ nl :: t)
  = sub_with find_alt x ++ nl :: sub_with find_alt t.
Proof.
  intros Hx Ht. remember (List.length x) as n eqn:Hn. revert x Hx Hn.
  induction n as [n IH] using lt_wf_ind. intros x Hx Hn.
  rewrite (sub_with_eq find_alt find_alt_progresses (x ++ nl :: t)).
  rewrite (sub_with_eq find_alt find_alt_progresses x).
  rewrite (find_alt_between x t Hx Ht).
  destruct (find_alt x) as [[out rest]|] eqn:E.
  - destruct (find_alt_suffix _ _ _ E) as [u Hu].
    apply find_alt_progresses in E. rewrite <- app_assoc. f_equal.
    apply (IH (List.length rest)); [lia| |reflexivity].
    apply (no_final_newline_suffix u). now rewrite <- Hu.
  - destruct x as [|c x].
    + reflexivity.
    + cbn [app]. f_equal. apply (IH (List.length x)); [simpl in Hn; lia| |reflexivity].
      apply (no_final_newline_suffix [c]). exact Hx.
Qed.

(** X4.  An [:alt:] line followed by an empty line and a line indented by
    three spaces, at the start of the text or after text that ends in one
    newline and not in two (as after a directive line): the two following
    lines are dropped and the alt text is kept as it was, and the text
    before and the text after are rewritten as they are on their own. *)
Theorem duplicated_caption_is_dropped (p x y rest : str) :
  p = [] \/ ends_in_one_newline p ->
  x <> [] -> y <> [] ->
  forallb dot x = true -> forallb dot y = true ->
  ends_line rest ->
  fix_image_alt_tag_as_text
    (p ++ py "   :alt: " ++ x ++ [nl; nl] ++ py "   " ++ y ++ rest)
  = fix_image_alt_tag_as_text p
    ++ py "   :alt: " ++ x ++ fix_image_alt_tag_as_text rest.
Proof.
  intros Hp Hx Hy Hdx Hdy Hrest. rewrite !fix_image_alt_scan.
  assert (Hhead : sub_with find_alt
                    (py "   :alt: " ++ x ++ [nl; nl] ++ py "   " ++ y ++ rest)
                  = py "   :alt: " ++ x ++ sub_with find_alt rest).
  { rewrite (sub_with_eq _ find_alt_progresses). unfold find_alt at 1.
    rewrite startswith_self.
    rewrite (skipn_app_le 9 (py "   :alt: ")) by (vm_compute; lia).
    change (skipn 9 (py "   :alt: ")) with (@nil char). cbn [app].
    change (x ++ nl :: nl :: py "   " ++ y ++ rest)
      with (x ++ (nl :: nl :: py "   ") ++ y ++ rest).
    rewrite (span_run dot x) by (exact Hdx || reflexivity).
    destruct x as [|c x]; [contradiction|]. cbn [is_nil].
    rewrite startswith_self.
    rewrite (skipn_app_le 5 (nl :: nl :: py "   ")) by (vm_compute; lia).
    change (skipn 5 (nl :: nl :: py "   ")) with (@nil char). cbn [app].
    rewrite (span_run dot y rest Hdy)
      by (destruct Hrest as [->|[b ->]]; reflexivity).
    destruct y; [contradiction|]. cbn [is_nil]. now rewrite <- !app_assoc. }
  assert (Hm : forall t',
             py "   :alt: " ++ x ++ [nl; nl] ++ py "   " ++ y ++ rest <> nl :: t')
    by discriminate.
  revert Hhead Hm.
  generalize (py "   :alt: " ++ x ++ [nl; nl] ++ py "   " ++ y ++ rest).
  intros m Hhead Hm.
  destruct Hp as [->|(q & -> & Hq)].
  - now rewrite (sub_with_nil find_alt find_alt_progresses).
  - rewrite <- app_assoc. change ([nl] ++ m) with (nl :: m).
    rewrite (alt_scan_between q m Hq Hm), Hhead.
    rewrite (alt_scan_between q [] Hq) by discriminate.
    now rewrite (sub_with_nil find_alt find_alt_progresses), <- app_assoc.
Qed.

(** After an empty line that follows another [:alt:] line the caption is
    kept: the match of the line before has taken the [:alt:] line. *)
Lemma caption_after_blank_line_is_kept :
  fix_image_alt_tag_as_text
    (py "   :alt: A" ++ [nl; nl] ++ py "   :alt: X" ++ [nl; nl] ++ py "   Y")
  = py "   :alt: A" ++ [nl; nl] ++ py "   Y".
Proof. vm_compute. reflexivity. Qed.

(** * Further properties of the converter *)

(** ** The final pass over the document *)

Lemma replace_percent_scan (s : str) :
  replace (nl :: py "%") (nl :: py "# %") s = sub_with find_percent s.
Proof.
  apply scan_ext. intros adv t. unfold lift_find, find_percent.
  now destruct (startswith (nl :: py "%") t).
Qed.

Lemma find_percent_progresses : progresses find_percent.
Proof.
  intros s out rest. unfold find_percent.
  destruct (startswith _ s) eqn:Hs; [|discriminate].
  apply startswith_length in Hs. change (List.length (nl :: py "%")) with 2 in Hs.
  intros [= _ <-]. rewrite length_skipn. lia.
Qed.

Lemma startswith_cons (a c : char) (l s : str) :
  startswith (a :: l) (c :: s) = ((a =? c)%N && startswith l s).
Proof. reflexivity. Qed.

Lemma find_percent_shape (s : str) :
  find_percent s
  = match s with
    | c :: d :: s' =>
        if ((nl =? c) && (37 =? d))%N then Some (nl :: py "# %", s') else None
    | _ => None
    end.
Proof.
  unfold find_percent. change (nl :: py "%") with [nl; 37%N].
  destruct s as [|c [|d s']]; cbn [startswith skipn];
    rewrite ?andb_false_r, ?andb_true_r; reflexivity.
Qed.

Lemma percent_scan_head (s : str) :
  startswith [37%N] (sub_with find_percent s) = startswith [37%N] s.
Proof.
  rewrite (sub_with_eq _ find_percent_progresses), find_percent_shape.
  destruct s as [|c [|d s']]; try reflexivity.
  destruct (N.eqb_spec nl c) as [<-|Hc]; [|reflexivity].
  destruct (37 =? d)%N; reflexivity.
Qed.

Lemma percent_scan_copies (c : char) (s : str) :
  c <> nl -> sub_with find_percent (c :: s) = c :: sub_with find_percent s.
Proof.
  intros Hc. rewrite (sub_with_eq _ find_percent_progresses), find_percent_shape.
  destruct s as [|d s']; [reflexivity|].
  destruct (N.eqb_spec nl c); [congruence|reflexivity].
Qed.

Lemma percent_scan_clean (s : str) :
  str_in [nl; 37%N] (sub_with find_percent s) = false.
Proof.
  remember (List.length s) as n eqn:Hn. revert s Hn.
  induction n as [n IH] using lt_wf_ind. intros s Hn.
  rewrite (sub_with_eq _ find_percent_progresses).
  destruct (find_percent s) as [[out rest]|] eqn:E.
  - pose proof (find_percent_progresses _ _ _ E) as Hlt.
    rewrite find_percent_shape in E. destruct s as [|c [|d s']]; try discriminate.
    destruct ((nl =? c) && (37 =? d))%N; [|discriminate].
    injection E as <- <-.
    change (nl :: py "# %") with [nl; 35%N; 32%N; 37%N].
    cbn [app str_in]. rewrite (IH (List.length s')) by (subst n; exact Hlt || reflexivity).
    reflexivity.
  - destruct s as [|c s]; [reflexivity|].
    cbn [str_in]. rewrite (IH (List.length s)) by (simpl in Hn; lia || reflexivity).
    rewrite orb_false_r, startswith_cons, percent_scan_head.
    rewrite find_percent_shape in E. destruct s as [|d s']; [now rewrite andb_false_r|].
    rewrite startswith_cons. cbn [startswith]. rewrite andb_true_r.
    destruct ((nl =? c) && (37 =? d))%N; [discriminate|reflexivity].
Qed.

Section ConverterMore.

Variable unicode_isalnum : char -> bool.
Variable unicode_lower : char -> str.
Variable pandoc : str -> str.
Variable b64decode : str -> option (list Byte.byte).
Variable CWD : list str.

Implicit Types (nbname gallery assets : str) (exe : bool) (fs : filesystem).

Local Abbreviation render := (render_output b64decode CWD).
Local Abbreviation convert_cell_with := (convert_cell unicode_isalnum pandoc b64decode CWD).
Local Abbreviation convert := (convert_notebook_to_python unicode_isalnum pandoc b64decode CWD).
Local Abbreviation author_block := (set_author_info unicode_lower CWD).
Local Abbreviation run_main := (main unicode_isalnum unicode_lower pandoc b64decode CWD).

Lemma convert_inv nbname exe gallery assets (nb : notebook) fs fs' (doc : str) :
  convert nbname exe gallery assets nb fs = (fs', inr doc) ->
  exists cs fs0 doc0,
    initial_validations nb fs = (fs0, inr cs)
    /\ for_each (convert_cell_with nbname exe gallery assets) 0 cs [] fs0
       = (fs', inr doc0)
    /\ doc = replace (nl :: py "%") (nl :: py "# %") doc0.
Proof.
  unfold convert_notebook_to_python, bind.
  destruct (initial_validations nb fs) as [fs0 [e|cs]]; [discriminate|].
  destruct (for_each (convert_cell_with nbname exe gallery assets) 0 cs [] fs0)
    as [fs1 [e|doc0]] eqn:E; [discriminate|].
  unfold ret. intros [= <- <-]. exists cs, fs0, doc0. auto.
Qed.

(** X5.  No line of a converted document begins with a percent sign after
    the first: the final pass has put [# ] before each, and what it writes
    does not begin a new such line. *)
Theorem document_has_no_percent_line nbname exe gallery assets (nb : notebook)
    fs fs' (doc : str) :
  convert nbname exe gallery assets nb fs = (fs', inr doc) ->
  str_in (nl :: py "%") doc = false.
Proof.
  intros (cs & fs0 & doc0 & _ & _ & ->)%convert_inv.
  rewrite replace_percent_scan. apply percent_scan_clean.
Qed.

(** ** The loop over the cells *)

Lemma convert_cell_extends nbname exe gallery assets (i : nat) (c : cell)
    (doc doc' : str) fs fs' :
  convert_cell_with nbname exe gallery assets (S i) c doc fs = (fs', inr doc') ->
  extends doc doc'.
Proof.
  unfold convert_cell, bind, ret. cbn [Nat.eqb].
  destruct (eqb_str (cell_type c) (py "markdown") && _).
  - intros [= <- <-]. eexists. reflexivity.
  - destruct (eqb_str (cell_type c) (py "code") && _).
    + destruct (negb exe).
      * destruct (for_each _ _ _ _ _) as [fs1 [e|st1]] eqn:E; [easy|].
        intros [= <- <-]. apply outputs_loop_extends in E. cbn [fst] in E.
        eapply extends_trans; [|exact E]. eexists. reflexivity.
      * intros [= <- <-]. eexists. reflexivity.
    + intros [= <- <-]. apply extends_refl.
Qed.

(** X6.  After the first cell nothing that is already in the document is
    changed: every later cell, and every run of later cells, only adds text
    at the end. *)
Theorem later_cells_only_append nbname exe gallery assets (i : nat)
    (cs : list cell) (doc doc' : str) fs fs' :
  for_each (convert_cell_with nbname exe gallery assets) (S i) cs doc fs
  = (fs', inr doc') ->
  exists added, doc' = doc ++ added.
Proof.
  intros H.
  apply (for_each_invariant _ (fun k => 1 <= k) (fun d => extends doc d)) in H;
    [exact H|lia| |lia|apply extends_refl].
  intros [|k] x st ? ? ? Hk Hst Hr; [lia|].
  apply convert_cell_extends in Hr. eapply extends_trans; eauto.
Qed.

Lemma percent_scan_prefix (p s : str) :
  forallb (fun c => negb (c =? nl)%N) p = true ->
  sub_with find_percent (p ++ s) = p ++ sub_with find_percent s.
Proof.
  induction p as [|c p IH]; [reflexivity|]. simpl.
  intros [Hc Hp]%andb_prop. apply negb_true_iff, N.eqb_neq in Hc.
  rewrite percent_scan_copies by exact Hc. now rewrite IH.
Qed.

(** X7.  When the first cell is a markdown cell with a source, the document
    begins with the raw triple-quoted header: [r], three double quotes. *)
Theorem document_begins_with_header nbname exe gallery assets (c : cell)
    (cs : list cell) fs fs' (doc : str) :
  cell_type c = py "markdown" ->
  cell_source c <> [] ->
  convert nbname exe gallery assets {| cells := Some (c :: cs) |} fs = (fs', inr doc) ->
  exists rest, doc = py "r" ++ triple_quote ++ rest.
Proof.
  intros Hty Hsrc (cs0 & fs0 & doc0 & Hval & Hloop & ->)%convert_inv.
  unfold initial_validations, bind in Hval. cbn in Hval. rewrite Hty in Hval.
  cbn in Hval. injection Hval as <- <-.
  cbn [for_each] in Hloop. unfold bind at 1 in Hloop.
  unfold convert_cell at 1 in Hloop. rewrite Hty in Hloop.
  change (eqb_str (py "markdown") (py "markdown")) with true in Hloop.
  rewrite (is_nil_false _ Hsrc) in Hloop. cbn [andb negb Nat.eqb ret] in Hloop.
  apply later_cells_only_append in Hloop as [added ->].
  rewrite replace_percent_scan, <- !app_assoc.
  rewrite (percent_scan_prefix (py "r")) by reflexivity.
  rewrite (percent_scan_prefix triple_quote) by reflexivity.
  eauto.
Qed.

(** X8.  A cell without source, and a cell that is neither markdown nor
    code, adds nothing and touches nothing: the outputs of a code cell
    without source are not rendered, whatever they are. *)
Theorem cell_without_source_is_skipped nbname exe gallery assets (i : nat)
    (c : cell) (doc : str) fs :
  cell_source c = []
  \/ (cell_type c <> py "markdown" /\ cell_type c <> py "code") ->
  convert_cell_with nbname exe gallery assets i c doc fs = (fs, inr doc).
Proof.
  intros [Hsrc | [Hmd Hcode]]; unfold convert_cell.
  - rewrite Hsrc. cbn [is_nil negb]. now rewrite !andb_false_r.
  - now rewrite (eqb_str_neq _ _ Hmd), (eqb_str_neq _ _ Hcode).
Qed.

(** X9.  The initial assertions accept exactly the notebooks that have a
    cell list whose first cell is a markdown cell, and hand back that list;
    the cells after the first are not looked at. *)
Theorem initial_validations_accept (nb : notebook) (cs : list cell) fs fs' :
  initial_validations nb fs = (fs', inr cs)
  <-> fs' = fs /\ cells nb = Some cs
      /\ exists c rest, cs = c :: rest /\ cell_type c = py "markdown".
Proof.
  unfold initial_validations, bind, assert, ret, raise. split.
  - destruct (cells nb) as [[|c rest]|]; cbn [is_nil negb]; try discriminate.
    destruct (eqb_str (cell_type c) (py "markdown")) eqn:E; [|discriminate].
    intros [= <- <-]. apply eqb_str_eq in E. eauto 6.
  - intros (-> & -> & c & rest & -> & Hty). cbn [is_nil negb]. rewrite Hty.
    reflexivity.
Qed.

(** ** The loop over the outputs *)

(** X10.  A [display_data] record with an image is rendered without its
    text: whatever [text/plain] it carries, or none, the result is the
    same. *)
Theorem image_output_ignores_text nbname gallery assets (c : cell) (j : nat)
    (payload : str) (tp tp' tx : option multiline) (st : str * nat) fs :
  render nbname gallery assets c j
    {| output_type := py "display_data";
       data := Some {| text_plain := tp; image_png := Some payload |};
       text := tx |} st fs
  = render nbname gallery assets c j
      {| output_type := py "display_data";
         data := Some {| text_plain := tp'; image_png := Some payload |};
         text := tx |} st fs.
Proof. unfold render_output. cbn. destruct tp, tp'; reflexivity. Qed.

Lemma for_each_same_fs {A St} (body : nat -> A -> St -> M St) (l : list A) :
  (forall i x st fs fs' r, In x l -> body i x st fs = (fs', r) -> fs' = fs) ->
  forall i st fs fs' r, for_each body i l st fs = (fs', r) -> fs' = fs.
Proof.
  induction l as [|x l IH]; intros Hbody i st fs fs' r; simpl.
  - now intros [= <- <-].
  - unfold bind. destruct (body i x st fs) as [fs1 [e|st1]] eqn:E;
      apply Hbody in E; try (now left); subst fs1.
    + now intros [= <- <-].
    + apply IH. intros. eapply Hbody; [right|]; eauto.
Qed.

Lemma render_without_image nbname gallery assets (c : cell) (j : nat) (o : output)
    (st : str * nat) fs fs' (r : exn + str * nat) :
  saves_no_image b64decode o ->
  render nbname gallery assets c j o st fs = (fs', r) -> fs' = fs.
Proof.
  intros Hno. unfold render_output, bind, ret, raise.
  destruct (eqb_str (output_type o) (py "execute_result")).
  { repeat case_match; now intros [= <- <-]. }
  destruct (eqb_str (output_type o) (py "display_data")) eqn:Hty.
  2:{ repeat case_match; now intros [= <- <-]. }
  destruct Hno as [Hno|Hno]; [apply eqb_str_eq in Hty; contradiction|].
  destruct (id c); [|now intros [= <- <-]].
  destruct (data o) as [d|]; [|now intros [= <- <-]].
  destruct (image_png d) as [payload|] eqn:Himg; [|now intros [= <- <-]].
  rewrite (Hno d payload eq_refl Himg). now intros [= <- <-].
Qed.

Lemma convert_cell_without_images nbname exe gallery assets (i : nat) (c : cell)
    (doc : str) fs fs' (r : exn + str) :
  (forall outs o, outputs c = Some outs -> In o outs -> saves_no_image b64decode o) ->
  convert_cell_with nbname exe gallery assets i c doc fs = (fs', r) -> fs' = fs.
Proof.
  intros Hno. unfold convert_cell, bind, ret.
  destruct (eqb_str (cell_type c) (py "markdown") && _).
  { destruct (Nat.eqb i 0); now intros [= <- <-]. }
  destruct (eqb_str (cell_type c) (py "code") && _); [|now intros [= <- <-]].
  destruct (negb exe); [|now intros [= <- <-]].
  destruct (for_each _ _ _ _ _) as [fs1 [e|st1]] eqn:E; intros [= <- <-];
    apply for_each_same_fs in E; auto; intros j o st fsa fsb r' Ho;
    apply render_without_image; destruct (outputs c) as [outs|];
    try contradiction; eapply Hno; eauto.
Qed.

(** X11.  The conversion touches the file system only to save images: when
    no output of the notebook can make the renderer save one, the file
    system after the conversion is the one before it, whether the
    conversion returns a document or raises. *)
Theorem conversion_without_images_keeps_fs nbname exe gallery assets (nb : notebook)
    fs fs' (r : exn + str) :
  (forall cs c outs o,
      cells nb = Some cs -> In c cs -> outputs c = Some outs -> In o outs ->
      saves_no_image b64decode o) ->
  convert nbname exe gallery assets nb fs = (fs', r) ->
  fs' = fs.
Proof.
  intros Hno. unfold convert_notebook_to_python. unfold bind at 1.
  destruct (initial_validations nb fs) as [fs0 [e|cs]] eqn:Hval.
  - unfold initial_validations, bind, assert, ret, raise in Hval.
    repeat case_match; simplify_eq; now intros [= <- <-].
  - apply initial_validations_accept in Hval as (-> & Hcells & _).
    unfold bind, ret.
    destruct (for_each (convert_cell_with nbname exe gallery assets) 0 cs [] fs)
      as [fs1 [e|doc0]] eqn:E; intros [= <- <-];
      apply for_each_same_fs in E; auto; intros i c doc fsa fsb r' Hc;
      apply convert_cell_without_images; eauto.
Qed.

End ConverterMore.

Section ConverterEffects.

Variable unicode_isalnum : char -> bool.
Variable unicode_lower : char -> str.
Variable pandoc : str -> str.
Variable b64decode : str -> option (list Byte.byte).
Variable CWD : list str.

Implicit Types (nbname gallery assets : str) (exe : bool) (fs : filesystem).

Local Abbreviation render := (render_output b64decode CWD).
Local Abbreviation convert_cell_with := (convert_cell unicode_isalnum pandoc b64decode CWD).
Local Abbreviation convert := (convert_notebook_to_python unicode_isalnum pandoc b64decode CWD).
Local Abbreviation author_block := (set_author_info unicode_lower CWD).

(** ** Live-executable notebooks *)

Lemma live_cell_is_pure (i : nat) (c : cell) (doc : str) :
  exists doc',
    forall nbname gallery assets fs,
      convert_cell_with nbname true gallery assets i c doc fs = (fs, inr doc')
      /\ convert_cell_with nbname true gallery assets i (erase_outputs c) doc fs
         = (fs, inr doc').
Proof.
  unfold convert_cell. change (cell_source (erase_outputs c)) with (cell_source c).
  cbn [erase_outputs cell_type negb].
  destruct (eqb_str (cell_type c) (py "markdown") && _).
  - destruct (Nat.eqb i 0); eexists; intros; split; reflexivity.
  - destruct (eqb_str (cell_type c) (py "code") && _);
      eexists; intros; split; reflexivity.
Qed.

Lemma live_cells_are_pure (cs : list cell) :
  forall (i : nat) (doc : str),
  exists doc',
    forall nbname gallery assets fs,
      for_each (convert_cell_with nbname true gallery assets) i cs doc fs
      = (fs, inr doc')
      /\ for_each (convert_cell_with nbname true gallery assets) i
           (map erase_outputs cs) doc fs
         = (fs, inr doc').
Proof.
  induction cs as [|c cs IH]; intros i doc.
  - exists doc. intros. split; reflexivity.
  - destruct (live_cell_is_pure i c doc) as [doc1 H1].
    destruct (IH (S i) doc1) as [doc2 H2]. exists doc2. intros.
    destruct (H1 nbname gallery assets fs) as [Ha Hb].
    destruct (H2 nbname gallery assets fs) as [Hc Hd].
    cbn [for_each map]. unfold bind. rewrite Ha, Hb. auto.
Qed.

(** X12.  With [is_executable] set, a notebook that passes the initial
    assertions always converts: nothing is raised and the file system is
    not touched, and the document is the same for every notebook name,
    gallery directory, asset folder and file system, and the same as for the
    notebook without any of its outputs. *)
Theorem live_conversion_is_pure (nb : notebook) (c : cell) (rest : list cell) :
  cells nb = Some (c :: rest) ->
  cell_type c = py "markdown" ->
  exists doc,
    forall nbname gallery assets fs,
      convert nbname true gallery assets nb fs = (fs, inr doc)
      /\ convert nbname true gallery assets
           {| cells := Some (map erase_outputs (c :: rest)) |} fs
         = (fs, inr doc).
Proof.
  intros Hcells Hty.
  destruct (live_cells_are_pure (c :: rest) 0 []) as [doc0 H].
  exists (replace (nl :: py "%") (nl :: py "# %") doc0). intros.
  destruct (H nbname gallery assets fs) as [Ha Hb].
  unfold convert_notebook_to_python, bind.
  assert (Hv1 : initial_validations nb fs = (fs, inr (c :: rest))).
  { apply initial_validations_accept. eauto 6. }
  assert (Hv2 : initial_validations {| cells := Some (map erase_outputs (c :: rest)) |} fs
                = (fs, inr (map erase_outputs (c :: rest)))).
  { apply initial_validations_accept. repeat split. exists (erase_outputs c).
    eexists. split; [reflexivity|exact Hty]. }
  rewrite Hv1, Hv2, Ha, Hb. auto.
Qed.

(** ** Saving an image over an existing file *)

Lemma stat_file_inv (p : Path) (c : content) fs :
  stat fs p = inr (File c) ->
  exists k, locate fs p = inr k /\ k <> [] /\ fs !! k = Some (File c).
Proof.
  unfold stat. destruct (locate fs p) as [e|k]; [discriminate|].
  destruct k as [|x k]; cbn [node_at]; [discriminate|].
  destruct (fs !! (x :: k)) as [n|] eqn:E; [|discriminate].
  intros H. injection H as ->. exists (x :: k). now repeat split.
Qed.

Lemma namei_overwrite (fs : filesystem) (k : list str) (c c' : content) :
  fs !! k = Some (File c) ->
  forall ps cur, namei (<[k := File c']> fs) cur ps = namei fs cur ps.
Proof.
  intros Hk ps. induction ps as [|p ps IH]; intros cur; simpl; [easy|].
  destruct (eqb_str p dotdot); [apply IH|].
  destruct (decide (k = cur ++ [p])) as [<-|Hne].
  - now rewrite lookup_insert_eq, Hk.
  - rewrite lookup_insert_ne by exact Hne.
    destruct (fs !! (cur ++ [p])) as [[?|]|]; auto.
Qed.

Lemma locate_overwrite (fs : filesystem) (k : list str) (c c' : content) (p : Path) :
  fs !! k = Some (File c) -> locate (<[k := File c']> fs) p = locate fs p.
Proof. intros Hk. unfold locate. now rewrite (namei_overwrite fs k c c' Hk). Qed.

Lemma write_over_file (p : Path) (c c' : content) (k : list str) fs :
  locate fs p = inr k -> k <> [] -> fs !! k = Some (File c) ->
  write_file p c' fs = (<[k := File c']> fs, inr tt).
Proof.
  intros Hloc Hne Hk. unfold write_file. rewrite Hloc.
  destruct k; [contradiction|]. cbn [node_at]. now rewrite Hk.
Qed.

(** X13.  Where a regular file already stands at the place of the image, the
    [display_data] record is rendered: the decoded payload replaces the
    content of that file and nothing else changes, the image counter goes up
    by one, and the document gets (after the rule, for the first output) an
    empty comment line and the figure block that names the path with the
    new counter.  Rendering the same record again from the same document and
    counter gives the same file system and the same result. *)
Theorem image_overwrites_existing_file nbname gallery assets (c : cell)
    (cell_id : str) (j : nat) (payload : str) (bytes : list Byte.byte)
    (old : content) (tp tx : option multiline) (doc : str) (n : nat) fs :
  id c = Some cell_id ->
  b64decode payload = Some bytes ->
  stat fs (save_loc CWD (image_file_path nbname gallery assets cell_id (S n)))
  = inr (File old) ->
  let o := {| output_type := py "display_data";
              data := Some {| text_plain := tp; image_png := Some payload |};
              text := tx |} in
  let doc' :=
    (if Nat.eqb j 0 then doc ++ [nl; nl] ++ rule else doc)
    ++ [nl] ++ py "#" ++ [nl]
    ++ generate_sphinx_role_comment (py "figure")
         (str_of_path (image_file_path nbname gallery assets cell_id (S n)))
         [(py "align", py "center"); (py "width", py "80%")] in
  exists k,
    locate fs (save_loc CWD (image_file_path nbname gallery assets cell_id (S n)))
    = inr k
    /\ render nbname gallery assets c j o (doc, n) fs
       = (<[k := File (Bytes bytes)]> fs, inr (doc', S n))
    /\ render nbname gallery assets c j o (doc, n) (<[k := File (Bytes bytes)]> fs)
       = (<[k := File (Bytes bytes)]> fs, inr (doc', S n)).
Proof.
  intros Hid Hdec Hstat o doc'.
  destruct (stat_file_inv _ _ _ Hstat) as (k & Hloc & Hne & Hk). exists k.
  assert (Hrun : forall fs0 old0,
             locate fs0 (save_loc CWD (image_file_path nbname gallery assets cell_id (S n)))
             = inr k ->
             fs0 !! k = Some (File old0) ->
             render nbname gallery assets c j o (doc, n) fs0
             = (<[k := File (Bytes bytes)]> fs0, inr (doc', S n))).
  { intros fs0 old0 Hloc0 Hk0. unfold render_output, bind. subst o.
    cbn [output_type data text_plain image_png fst snd].
    change (eqb_str (py "display_data") (py "execute_result")) with false.
    change (eqb_str (py "display_data") (py "display_data")) with true.
    cbn iota. rewrite Hid. unfold ret at 1. rewrite Hdec. unfold ret at 1.
    unfold path_exists, stat. rewrite Hloc0.
    destruct k as [|x k]; [contradiction|]. cbn [node_at]. rewrite Hk0. cbn [negb].
    unfold ret at 1.
    rewrite (write_over_file _ old0 (Bytes bytes) (x :: k) fs0 Hloc0 Hne Hk0).
    unfold ret, doc'. destruct tp; rewrite <- ?app_assoc; reflexivity. }
  split; [exact Hloc|]. split; [exact (Hrun fs old Hloc Hk)|].
  rewrite (Hrun _ (Bytes bytes)).
  - now rewrite insert_insert_eq.
  - now rewrite (locate_overwrite fs k old (Bytes bytes) _ Hk).
  - apply lookup_insert_eq.
Qed.

(** ** Failures of the author block *)

(** X14.  [set_author_info] raises and leaves the file system as it was when
    a required key is missing ([KeyError]) and when the picture cannot be
    read: nothing at its place, or a missing directory on the way, gives the
    error of the lookup; the info file is not written then. *)
Theorem author_block_fails_cleanly (author : author_info) (authors_dir : str) fs :
  (name author = None ->
   author_block author authors_dir fs = (fs, inl (KeyError "name")))
  /\ (forall n,
        name author = Some n -> profile_picture author = None ->
        author_block author authors_dir fs = (fs, inl (KeyError "profile_picture")))
  /\ (forall n p e,
        name author = Some n -> profile_picture author = Some p ->
        stat fs (save_loc CWD (parse_path p)) = inl e ->
        author_block author authors_dir fs = (fs, inl e)).
Proof.
  unfold set_author_info, bind. repeat split.
  - now intros ->.
  - now intros n -> ->.
  - intros n p e -> -> Hstat. unfold ret at 1 2.
    unfold shutil_copy. rewrite Hstat. unfold bind, read_file. now rewrite Hstat.
Qed.

End ConverterEffects.

(** ** Lines and [join] *)

Lemma split_on_free (sep : char) (s : str) : ~ In sep s -> split_on sep s = [s].
Proof.
  induction s as [|c s IH]; intros Hs; simpl; [reflexivity|].
  destruct (N.eqb_spec c sep) as [->|Hc]; [exfalso; apply Hs; now left|].
  rewrite IH; [reflexivity|]. intros H. apply Hs. now right.
Qed.

Lemma split_lines_line (x r : str) :
  ~ In nl x -> split_lines (x ++ nl :: r) = x :: split_lines r.
Proof.
  intros Hx. induction x as [|c x IH]; [reflexivity|].
  assert (Hc : c <> nl) by (intros ->; apply Hx; now left).
  simpl app. rewrite (split_lines_cons c _ Hc), IH; [reflexivity|].
  intros H. apply Hx. now right.
Qed.

Lemma split_lines_free (s : str) : Forall (fun l => ~ In nl l) (split_lines s).
Proof.
  induction s as [|c s IH]; [repeat constructor; easy|].
  destruct (N.eq_dec c nl) as [->|Hc].
  - rewrite split_lines_newline. constructor; [easy|exact IH].
  - rewrite (split_lines_cons c s Hc).
    pose proof (split_lines_nonempty s) as Hne.
    destruct (split_lines s) as [|l ls]; [contradiction|]. cbn [hd tl].
    inversion IH as [|? ? Hl Hls]; subst. constructor; [|exact Hls].
    intros [H|H]; [congruence|contradiction].
Qed.

Lemma join_cons (sep x : str) (y : str) (l : list str) :
  join sep (x :: y :: l) = x ++ sep ++ join sep (y :: l).
Proof. reflexivity. Qed.

Lemma join_split_lines (s : str) : join [nl] (split_lines s) = s.
Proof.
  induction s as [|c s IH]; [reflexivity|].
  pose proof (split_lines_nonempty s) as Hne.
  destruct (N.eq_dec c nl) as [->|Hc].
  - rewrite split_lines_newline. destruct (split_lines s) as [|l ls]; [contradiction|].
    rewrite join_cons, IH. reflexivity.
  - rewrite (split_lines_cons c s Hc).
    destruct (split_lines s) as [|l ls]; [contradiction|]. cbn [hd tl].
    rewrite <- IH. destruct ls; reflexivity.
Qed.

Lemma split_lines_join (ls : list str) :
  ls <> [] -> Forall (fun l => ~ In nl l) ls -> split_lines (join [nl] ls) = ls.
Proof.
  induction ls as [|x ls IH]; [contradiction|]. intros _ Hall.
  inversion Hall as [|? ? Hx Hls]; subst. destruct ls as [|y ls].
  - apply (split_on_free nl x Hx).
  - rewrite join_cons. change ([nl] ++ join [nl] (y :: ls)) with (nl :: join [nl] (y :: ls)).
    rewrite (split_lines_line x _ Hx), IH; [reflexivity|discriminate|exact Hls].
Qed.

Lemma join_app (sep : str) (l1 l2 : list str) :
  l1 <> [] -> l2 <> [] ->
  join sep (l1 ++ l2) = join sep l1 ++ sep ++ join sep l2.
Proof.
  intros H1 H2. induction l1 as [|x l1 IH]; [contradiction|].
  destruct l1 as [|y l1].
  - destruct l2; [contradiction|reflexivity].
  - change ((x :: y :: l1) ++ l2) with (x :: y :: (l1 ++ l2)).
    rewrite !join_cons. change (y :: l1 ++ l2) with ((y :: l1) ++ l2).
    rewrite IH by discriminate. now rewrite <- !app_assoc.
Qed.

Lemma no_newline_forallb (l : str) :
  forallb (fun c => negb (c =? nl)%N) l = true -> ~ In nl l.
Proof.
  induction l as [|c l IH]; simpl; [easy|].
  intros [Hc Hl]%andb_prop [->|H]; [|now apply IH].
  now rewrite N.eqb_refl in Hc.
Qed.

(** ** Comment blocks *)

(** X15.  The block for a text output, line by line: two empty lines, the
    rule, the six lines of the header, and one comment line per line of the
    text, indented by four spaces and without its trailing white space;
    this when no line of the text has a newline left in it after that. *)
Theorem output_block_lines (t : multiline) :
  truthy t = true ->
  Forall (fun line => ~ In nl (rstrip line)) (iter t) ->
  split_lines (generate_code_output_block (Some t) false)
  = [ []; []; rule;
      py "# .. rst-class :: sphx-glr-script-out"; py "# ";
      py "# Out:"; py "# ";
      py "# .. code-block: none"; py "# " ]
    ++ map (fun line => py "#    " ++ rstrip line) (iter t).
Proof.
  intros Ht Hlines. unfold generate_code_output_block. rewrite Ht.
  assert (Hne : map (fun line => py "#    " ++ rstrip line) (iter t) <> []).
  { destruct t as [[|l ls]|[|c s]]; try discriminate. }
  set (head := [ []; []; rule;
      py "# .. rst-class :: sphx-glr-script-out"; py "# ";
      py "# Out:"; py "# ";
      py "# .. code-block: none"; py "# " ]).
  replace ([nl; nl] ++ rule ++ [nl] ++ output_header
           ++ [nl] ++ join [nl] (map (fun line => py "#    " ++ rstrip line) (iter t)))
    with (join [nl] (head ++ map (fun line => py "#    " ++ rstrip line) (iter t))).
  - apply split_lines_join; [now destruct (map _ (iter t))|].
    apply Forall_app. split.
    + subst head. repeat constructor; apply no_newline_forallb; reflexivity.
    + apply List.Forall_forall. intros l [x [<- Hx]]%in_map_iff.
      rewrite List.Forall_forall in Hlines. intros [H|H]%in_app_iff.
      * revert H. apply no_newline_forallb. reflexivity.
      * exact (Hlines x Hx H).
  - rewrite (join_app [nl] head _) by (exact Hne || discriminate).
    change (join [nl] head) with ([nl; nl] ++ rule ++ [nl] ++ output_header).
    now rewrite <- !app_assoc.
Qed.

(** X16.  The comment for a directive, line by line: the directive line and
    one option line per attribute, in the order given; this when the role,
    the target and the attributes have no newline in them. *)
Theorem role_comment_lines (role_name target : str) (attrs : list (str * str)) :
  ~ In nl role_name -> ~ In nl target ->
  Forall (fun a => ~ In nl (fst a) /\ ~ In nl (snd a)) attrs ->
  split_lines (generate_sphinx_role_comment role_name target attrs)
  = (py "# .. " ++ role_name ++ py ":: " ++ target)
    :: map (fun a => py "#    :" ++ fst a ++ py ": " ++ snd a) attrs.
Proof.
  intros Hr Ht Hattrs. unfold generate_sphinx_role_comment.
  apply split_lines_join; [discriminate|]. constructor.
  - intros H. repeat (apply in_app_iff in H as [H|H]); auto;
      revert H; apply no_newline_forallb; reflexivity.
  - apply List.Forall_forall. intros l [a [<- Ha]]%in_map_iff.
    rewrite List.Forall_forall in Hattrs. destruct (Hattrs a Ha) as [H1 H2].
    intros H. repeat (apply in_app_iff in H as [H|H]); auto;
      revert H; apply no_newline_forallb; reflexivity.
Qed.

Section MarkdownCells.

Variable unicode_isalnum : char -> bool.
Variable pandoc : str -> str.
Variable b64decode : str -> option (list Byte.byte).
Variable CWD : list str.

Local Abbreviation convert_cell_with := (convert_cell unicode_isalnum pandoc b64decode CWD).

(** X17.  A markdown cell after the first, with a source: the rule and then
    the post-processed text, every line of it behind [# ], are added and
    nothing else happens.  Taking the two characters off each added line
    gives the post-processed text back. *)
Theorem later_markdown_cell_is_commented (nbname gallery assets : str) (exe : bool)
    (i : nat) (c : cell) (doc : str) (fs : filesystem) :
  cell_type c = py "markdown" ->
  cell_source c <> [] ->
  exists body,
    convert_cell_with nbname exe gallery assets (S i) c doc fs
    = (fs, inr (doc ++ [nl; nl] ++ rule ++ [nl] ++ body))
    /\ split_lines body
       = map (fun line => py "# " ++ line)
           (split_lines (post_process unicode_isalnum (pandoc (cell_source c))))
    /\ join [nl] (map (skipn 2) (split_lines body))
       = post_process unicode_isalnum (pandoc (cell_source c)).
Proof.
  intros Hty Hsrc.
  set (F := post_process unicode_isalnum (pandoc (cell_source c))).
  exists (join [nl] (map (fun line => py "# " ++ line) (split_lines F))).
  assert (Hsplit : split_lines (join [nl] (map (fun line => py "# " ++ line)
                                             (split_lines F)))
                   = map (fun line => py "# " ++ line) (split_lines F)).
  { apply split_lines_join.
    - pose proof (split_lines_nonempty F). now destruct (split_lines F).
    - apply List.Forall_forall. intros l [x [<- Hx]]%in_map_iff.
      pose proof (split_lines_free F) as Hfree. rewrite List.Forall_forall in Hfree.
      intros [H|H]%in_app_iff; [|exact (Hfree x Hx H)].
      revert H. apply no_newline_forallb. reflexivity. }
  split; [|split; [exact Hsplit|]].
  - unfold convert_cell. rewrite Hty.
    change (eqb_str (py "markdown") (py "markdown")) with true.
    rewrite (is_nil_false _ Hsrc). reflexivity.
  - rewrite Hsplit, map_map.
    rewrite (map_ext _ (fun x => x)) by reflexivity.
    rewrite map_id. apply join_split_lines.
Qed.

End MarkdownCells.

(** ** The stem of the author files *)

Lemma name_separators_scan (s : str) :
  re_sub (Plus name_separator) [TLit (py "_")] s = sub_with find_separators s.
Proof.
  apply scan_ext. intros adv t. unfold match_at, lift_find, find_separators.
  cbn [match_re]. rewrite plus_greedy_accepting.
  - destruct (span name_separator t) as [w rest]. destruct w; [reflexivity|].
    cbn [is_nil app]. now rewrite andb_false_r.
  - intros m rest Hm. destruct m; [contradiction|]. cbn [is_nil].
    rewrite andb_false_r. discriminate.
Qed.

Lemma find_separators_progresses : progresses find_separators.
Proof.
  intros s out rest. unfold find_separators.
  pose proof (span_rest_length name_separator s) as Hlen.
  destruct (span name_separator s) as [w r]. destruct w; [discriminate|].
  intros [= _ <-]. simpl in Hlen. lia.
Qed.

(** After the scan every character is the underscore or a character of the
    input that is not a separator. *)
Lemma separators_scan_chars (P : char -> Prop) (s : str) :
  Forall P s ->
  Forall (fun c => c = 95%N \/ (name_separator c = false /\ P c))
         (sub_with find_separators s).
Proof.
  remember (List.length s) as n eqn:Hn. revert s Hn.
  induction n as [n IH] using lt_wf_ind. intros s Hn Hs.
  rewrite (sub_with_eq _ find_separators_progresses).
  destruct (find_separators s) as [[out rest]|] eqn:E.
  - pose proof (find_separators_progresses _ _ _ E) as Hlt.
    unfold find_separators in E. pose proof (span_app name_separator s) as Happ.
    destruct (span name_separator s) as [w r]. cbn [fst snd] in Happ.
    destruct w; [discriminate|]. injection E as <- <-.
    apply Forall_app. split; [repeat constructor; now left|].
    apply (IH (List.length r)); [lia|reflexivity|].
    rewrite <- Happ in Hs. now apply Forall_app in Hs.
  - destruct s as [|c s]; [constructor|].
    inversion Hs as [|? ? Hc Hs']; subst. constructor.
    + right. split; [|exact Hc]. unfold find_separators in E. simpl in E.
      destruct (name_separator c); [|reflexivity].
      destruct (span name_separator s); discriminate.
    + apply (IH (List.length s)); [simpl; lia|reflexivity|exact Hs'].
Qed.

Section Stem.

Variable unicode_lower : char -> str.

(** X18.  Without a formatted name, and for a name within the Basic
    Multilingual Plane, the stem of the author files is made of ASCII
    characters only, none of them a space, a hyphen, an apostrophe or a
    capital letter. *)
Theorem stem_is_plain (author : author_info) (nm : str) :
  formatted_name author = None ->
  Forall (fun c => (c < 65536)%N) nm ->
  Forall (fun c => (c < 128)%N /\ c <> 32%N /\ c <> 45%N /\ c <> 39%N
                   /\ ~ (65 <= c <= 90)%N)
         (name_formatted unicode_lower author nm).
Proof.
  intros Hf Hnm. unfold name_formatted. rewrite Hf, name_separators_scan.
  pose proof (separators_scan_chars _ nm Hnm) as Hscan.
  unfold lower. apply List.Forall_forall. intros c [x [Hx Hc]]%in_flat_map.
  rewrite List.Forall_forall in Hscan. specialize (Hscan x Hx).
  unfold in_range in Hc.
  assert (Hx128 : (x < 128)%N /\ x <> 32%N /\ x <> 45%N /\ x <> 39%N).
  { destruct Hscan as [->|[Hsep Hlt]]; [repeat split; (lia || discriminate)|].
    unfold name_separator, in_range in Hsep.
    repeat (apply orb_false_elim in Hsep as [Hsep ?]).
    repeat match goal with
           | H : (_ =? _)%N = false |- _ => apply N.eqb_neq in H
           | H : _ && _ = false |- _ => apply andb_false_iff in H
           end.
    repeat split; try assumption.
    destruct H as [H|H]; [apply N.leb_gt in H|apply N.leb_gt in H]; lia. }
  destruct Hx128 as (Hlt & H32 & H45 & H39).
  destruct (N.leb_spec 65 x), (N.leb_spec x 90); cbn [andb] in Hc.
  - destruct Hc as [<-|[]]. repeat split; lia.
  - assert (Hlt' : (x <? 128)%N = true) by now apply N.ltb_lt.
    rewrite Hlt' in Hc. destruct Hc as [<-|[]]. repeat split; (assumption || lia).
  - assert (Hlt' : (x <? 128)%N = true) by now apply N.ltb_lt.
    rewrite Hlt' in Hc. destruct Hc as [<-|[]]. repeat split; (assumption || lia).
  - assert (Hlt' : (x <? 128)%N = true) by now apply N.ltb_lt.
    rewrite Hlt' in Hc. destruct Hc as [<-|[]]. repeat split; (assumption || lia).
Qed.

End Stem.

(** ** The path of an image *)

Lemma parse_path_name (s : str) :
  s <> [] -> ~ In slash s -> s <> [period] ->
  parse_path s = {| anchor_of := Relative; parts := [s] |}.
Proof.
  intros Hne Hslash Hdot. unfold parse_path.
  rewrite (split_on_free slash s Hslash).
  rewrite filter_cons_True, filter_nil
    by (rewrite (is_nil_false s Hne), (eqb_str_neq _ _ Hdot); exact I).
  destruct s as [|c s]; [contradiction|]. cbn [drop_while].
  destruct (N.eqb_spec slash c) as [<-|Hc]; [exfalso; apply Hslash; now left|].
  now rewrite Nat.sub_diag.
Qed.

Lemma digits_have_no_slash (d : Decimal.uint) :
  ~ In slash (py (NilEmpty.string_of_uint d)).
Proof.
  induction d; simpl; try easy;
    intros [H|H]; try discriminate; contradiction.
Qed.

Lemma str_of_nat_has_no_slash (n : nat) : ~ In slash (str_of_nat n).
Proof.
  unfold str_of_nat, NilZero.string_of_uint.
  destruct (Nat.to_uint n) eqn:E; try (rewrite <- E; apply digits_have_no_slash).
  simpl. intros [H|[]]. discriminate.
Qed.

(** X19.  The image with counter [n] of the cell [cell_id] is saved as
    [<notebook>_<cell id>_<n>.png] in the asset folder under the gallery
    directory; this when neither the notebook name nor the cell id has a
    slash in it and the asset folder is a relative path. *)
Theorem image_path_is_in_the_asset_folder (nbname gallery assets cell_id : str)
    (n : nat) :
  ~ In slash nbname -> ~ In slash cell_id ->
  is_absolute (parse_path assets) = false ->
  image_file_path nbname gallery assets cell_id n
  = {| anchor_of := anchor_of (parse_path gallery);
       parts := parts (parse_path gallery) ++ parts (parse_path assets)
                ++ [nbname ++ py "_" ++ cell_id ++ py "_" ++ str_of_nat n ++ py ".png"] |}.
Proof.
  intros Hnb Hid Hrel. unfold image_file_path.
  rewrite (parse_path_name (nbname ++ _)).
  - unfold joinpath. rewrite Hrel. cbn [is_absolute anchor_of parts].
    now rewrite <- app_assoc.
  - intros H. apply (f_equal (@List.length char)) in H.
    rewrite !length_app in H. simpl in H. lia.
  - intros H. repeat (apply in_app_iff in H as [H|H]); auto.
    + revert H. vm_compute. intuition discriminate.
    + revert H. vm_compute. intuition discriminate.
    + revert H. apply str_of_nat_has_no_slash.
    + revert H. vm_compute. intuition discriminate.
  - intros H. apply (f_equal (@List.length char)) in H.
    rewrite !length_app in H. simpl in H. lia.
Qed.

Section MainFacts.

Variable unicode_isalnum : char -> bool.
Variable unicode_lower : char -> str.
Variable pandoc : str -> str.
Variable b64decode : str -> option (list Byte.byte).
Variable CWD : list str.

Local Abbreviation convert := (convert_notebook_to_python unicode_isalnum pandoc b64decode CWD).
Local Abbreviation author_block := (set_author_info unicode_lower CWD).
Local Abbreviation run_main := (main unicode_isalnum unicode_lower pandoc b64decode CWD).

(** X20.  When the script ends without an exception, the author block was
    made first and the notebook converted after it, under the stem of the
    notebook file (live-executable when the stem begins with [tutorial_] or
    the flag is set, the asset folder being the stem without that prefix);
    the last thing done is to write the document, the converted text
    followed by the author block, to [<stem>.py] in the gallery
    directory. *)
Theorem main_writes_document_last (file : str) (is_exe : bool)
    (gallery authors : str) (nb : notebook) (author : author_info)
    (fs fs' : filesystem) :
  run_main file is_exe gallery authors nb author fs = (fs', inr tt) ->
  let nbname := stem (parse_path file) in
  let exe := startswith (py "tutorial_") nbname || is_exe in
  let assets := if startswith (py "tutorial_") nbname then skipn 9 nbname else nbname in
  exists block doc fs1 fs2 k,
    author_block author authors fs = (fs1, inr block)
    /\ convert nbname exe gallery assets nb fs1 = (fs2, inr doc)
    /\ locate fs2 (joinpath (save_loc CWD (parse_path gallery))
                            (parse_path (nbname ++ py ".py"))) = inr k
    /\ fs' = <[k := File (Text (doc ++ block))]> fs2.
Proof.
  intros H nbname exe assets. unfold main, bind in H.
  destruct (author_block author authors fs) as [fs1 [e|block]] eqn:Ha;
    [discriminate|].
  fold nbname in H. change (List.length (py "tutorial_")) with 9 in H.
  fold assets in H. fold exe in H.
  destruct (convert nbname exe gallery assets nb fs1) as [fs2 [e|doc]] eqn:Hc;
    [discriminate|].
  unfold write_file in H.
  destruct (locate fs2 _) as [e|k] eqn:Hk; [discriminate|].
  destruct (node_at fs2 k) as [[?|]|]; try discriminate;
    injection H as <-; exists block, doc, fs1, fs2, k; auto.
Qed.

End MainFacts.

(** ** The attribute split, applied again *)

Lemma span_fst_all (p : char -> bool) (s : str) : forallb p (fst (span p s)) = true.
Proof.
  induction s as [|c s IH]; simpl; [reflexivity|].
  destruct (p c) eqn:Hc; [|reflexivity]. destruct (span p s). simpl in *.
  now rewrite Hc.
Qed.

(** A text none of whose suffixes begins with a match, with more text put in
    front of it. *)
Lemma no_match_prepend (F : str -> option (str * str)) (pre o : str) :
  (forall q p, pre = q ++ p -> p <> [] -> F (p ++ o) = None) ->
  (forall a b, o = a ++ b -> F b = None) ->
  forall a b, pre ++ o = a ++ b -> F b = None.
Proof.
  induction pre as [|c pre IH]; intros Hpre Ho a b Hab; [exact (Ho a b Hab)|].
  destruct a as [|c' a].
  - simpl in Hab. subst b. apply (Hpre [] (c :: pre)); [reflexivity|discriminate].
  - injection Hab as <- Hab. apply (IH (fun q p Hq => Hpre (c :: q) p (f_equal _ Hq)) Ho a b Hab).
Qed.

Section SplitAgain.

Variable unicode_isalnum : char -> bool.

Local Abbreviation word := (word unicode_isalnum).
Local Abbreviation finder := (find_property unicode_isalnum).
Local Abbreviation split := (sub_with (find_property unicode_isalnum)).

(** A literal without newline at the head of the rewritten text was at the
    head of the text. *)
Lemma split_keeps_head (l : str) :
  forallb (fun c => negb (c =? nl)%N) l = true ->
  forall s, startswith l (split s) = true -> startswith l s = true.
Proof.
  intros Hl s. revert l Hl. induction s as [|c s IH]; intros l Hl.
  - now rewrite (sub_with_nil _ (find_property_progresses unicode_isalnum)).
  - rewrite (sub_with_eq _ (find_property_progresses unicode_isalnum)).
    destruct (finder (c :: s)) as [[out rest]|] eqn:E.
    + unfold find_property in E.
      pose proof (span_app word (c :: s)) as Happ.
      destruct (span word (c :: s)) as [w r]. cbn [fst snd] in Happ.
      destruct (is_nil w); [discriminate|].
      destruct (startswith _ r); [|discriminate]. injection E as <- <-.
      rewrite <- app_assoc. change ((nl :: py "   :property=") ++ split (skipn 11 r))
        with (nl :: (py "   :property=" ++ split (skipn 11 r))).
      rewrite (startswith_newline l w _ Hl). intros H. rewrite <- Happ.
      now apply startswith_app.
    + destruct l as [|a l]; [reflexivity|]. rewrite !startswith_cons.
      simpl in Hl. apply andb_prop in Hl as [_ Hl].
      intros [-> H]%andb_prop. now rewrite (IH l Hl H).
Qed.

Lemma marker_after_first_word (s : str) :
  startswith (py " :property=") (snd (span word (split s))) = true ->
  startswith (py " :property=") (snd (span word s)) = true.
Proof.
  induction s as [|c s IH].
  - now rewrite (sub_with_nil _ (find_property_progresses unicode_isalnum)).
  - destruct (finder (c :: s)) as [[out rest]|] eqn:E.
    + intros _. unfold find_property in E. destruct (span word (c :: s)) as [w r].
      destruct (is_nil w); [discriminate|]. cbn [snd].
      now destruct (startswith _ r).
    + rewrite (sub_with_eq _ (find_property_progresses unicode_isalnum)), E.
      cbn [span]. destruct (word c) eqn:Hc.
      * destruct (span word (split s)), (span word s). exact IH.
      * cbn [snd]. intros H.
        apply (split_keeps_head (py " :property=") eq_refl (c :: s)).
        now rewrite (sub_with_eq _ (find_property_progresses unicode_isalnum)), E.
Qed.

Lemma find_property_cons_none (c : char) (t : str) :
  finder (c :: t) = None
  <-> word c = false \/ startswith (py " :property=") (snd (span word t)) = false.
Proof.
  unfold find_property. cbn [span]. destruct (word c); [|now split; auto].
  destruct (span word t) as [w r]. cbn [is_nil snd].
  destruct (startswith _ r); split; try discriminate; auto.
  now intros [H|H].
Qed.

Lemma word_run_then_newline (w rest : str) :
  w <> [] -> forallb word w = true -> finder (w ++ nl :: rest) = None.
Proof.
  intros Hne Hw. unfold find_property.
  rewrite (span_stop word w rest nl (word_newline unicode_isalnum)), (span_all word w Hw).
  cbn [fst snd app]. destruct w; [contradiction|]. reflexivity.
Qed.

Lemma forallb_suffix (p : char -> bool) (q w : str) :
  forallb p (q ++ w) = true -> forallb p w = true.
Proof. rewrite forallb_app. now intros [_ H]%andb_prop. Qed.

(** Nothing of what the split writes for a match begins a new match. *)
Lemma written_text_has_no_match (w o : str) :
  forallb word w = true ->
  (forall a b, o = a ++ b -> finder b = None) ->
  forall a b, (w ++ nl :: py "   :property=") ++ o = a ++ b -> finder b = None.
Proof.
  intros Hw Ho a b. rewrite <- app_assoc. revert a b.
  apply no_match_prepend.
  - intros q p -> Hp.
    apply (word_run_then_newline p (py "   :property=" ++ o) Hp).
    now apply forallb_suffix in Hw.
  - apply (no_match_prepend _ (nl :: py "   :property=")); [|exact Ho].
    intros q p Hq Hp.
    do 14 (destruct q as [|? q];
           [simpl in Hq; subst p; reflexivity|
            injection Hq as <- Hq]).
    destruct q; [simpl in Hq; subst p; contradiction|discriminate].
Qed.

Lemma split_has_no_match (s : str) :
  forall a b, split s = a ++ b -> finder b = None.
Proof.
  remember (List.length s) as n eqn:Hn. revert s Hn.
  induction n as [n IH] using lt_wf_ind. intros s Hn.
  rewrite (sub_with_eq _ (find_property_progresses unicode_isalnum)).
  destruct (finder s) as [[out rest]|] eqn:E.
  - pose proof (find_property_progresses unicode_isalnum _ _ _ E) as Hlt.
    unfold find_property in E. pose proof (span_fst_all word s) as Hw.
    destruct (span word s) as [w r]. cbn [fst] in Hw.
    destruct (is_nil w); [discriminate|].
    destruct (startswith _ r); [|discriminate]. injection E as <- <-.
    apply (written_text_has_no_match w _ Hw).
    apply (IH (List.length (skipn 11 r))); [lia|reflexivity].
  - destruct s as [|c s];
      [intros [|? a] b H; [simpl in H; subst b; reflexivity|discriminate]|].
    assert (IHs : forall a b, split s = a ++ b -> finder b = None).
    { apply (IH (List.length s)); [simpl in Hn; lia|reflexivity]. }
    intros [|c' a] b Hab.
    + simpl in Hab. subst b. apply find_property_cons_none.
      destruct (word c) eqn:Hc; [right|now left].
      destruct (startswith (py " :property=") (snd (span word (split s)))) eqn:H;
        [|reflexivity].
      apply marker_after_first_word in H.
      apply find_property_cons_none in E as [E|E]; congruence.
    + injection Hab as <- Hab. exact (IHs a b Hab).
Qed.

(** X21.  The attribute split leaves no [ :property=] directly behind a
    word character, so that splitting a second time changes nothing. *)
Theorem property_split_is_idempotent (s : str) :
  add_property_newline unicode_isalnum (add_property_newline unicode_isalnum s)
  = add_property_newline unicode_isalnum s
  /\ forall x c y,
       add_property_newline unicode_isalnum s = x ++ c :: py " :property=" ++ y ->
       word c = false.
Proof.
  rewrite !add_property_newline_scan. split.
  - apply sub_with_no_match; [apply find_property_progresses|].
    apply split_has_no_match.
  - intros x c y Hs. pose proof (split_has_no_match s x _ Hs) as Hnone.
    unfold find_property in Hnone. cbn [span] in Hnone.
    destruct (word c); [|reflexivity].
    change (py " :property=" ++ y) with (space :: (py ":property=" ++ y)) in Hnone.
    cbn [span] in Hnone. rewrite word_space in Hnone. cbn [is_nil] in Hnone.
    change (space :: py ":property=" ++ y) with (py " :property=" ++ y) in Hnone.
    now rewrite startswith_self in Hnone.
Qed.

End SplitAgain.

(** ** What the author block writes *)

Lemma write_file_inv (p : Path) (c : content) (fs fs' : filesystem) :
  write_file p c fs = (fs', inr tt) ->
  exists k, locate fs p = inr k /\ fs' = <[k := File c]> fs.
Proof.
  unfold write_file. destruct (locate fs p) as [e|k]; [discriminate|].
  destruct (node_at fs k) as [[?|]|]; try discriminate;
    intros [= <-]; eauto.
Qed.

(** [shutil.copy] writes the content of the source at the destination, or
    under the name of the source in the destination when that is a
    directory. *)
Lemma shutil_copy_inv (src dst : Path) (fs fs' : filesystem) :
  shutil_copy src dst fs = (fs', inr tt) ->
  exists picture k,
    stat fs src = inr (File picture)
    /\ locate fs (if is_dir fs dst then joinpath dst (parse_path (path_name src))
                  else dst) = inr k
    /\ fs' = <[k := File picture]> fs.
Proof.
  unfold shutil_copy.
  set (dst' := if is_dir fs dst then joinpath dst (parse_path (path_name src)) else dst).
  assert (Hcopy : (let* c := read_file src in write_file dst' c) fs = (fs', inr tt) ->
                  exists picture k,
                    stat fs src = inr (File picture) /\ locate fs dst' = inr k
                    /\ fs' = <[k := File picture]> fs).
  { unfold bind, read_file. destruct (stat fs src) as [e|[picture|]]; try discriminate.
    intros (k & Hk & ->)%write_file_inv. eauto. }
  destruct (stat fs src) as [?|?], (stat fs dst') as [?|?],
    (locate fs src) as [?|a], (locate fs dst') as [?|b]; try exact Hcopy.
  destruct (bool_decide (a = b)); [discriminate|exact Hcopy].
Qed.

(** A walk that succeeds after a file was written succeeded before. *)
Lemma namei_before_write (fs : filesystem) (k : list str) (c : content) :
  forall ps cur d, namei (<[k := File c]> fs) cur ps = inr d -> namei fs cur ps = inr d.
Proof.
  intros ps. induction ps as [|p ps IH]; intros cur d; simpl; [easy|].
  destruct (eqb_str p dotdot); [apply IH|].
  destruct (decide (k = cur ++ [p])) as [<-|Hne].
  - rewrite lookup_insert_eq. discriminate.
  - rewrite lookup_insert_ne by exact Hne.
    destruct (fs !! (cur ++ [p])) as [[?|]|]; auto.
Qed.

(** The place of a name in a directory. *)
Lemma locate_in_directory (fs : filesystem) (p : Path) (dir : list str) (l : str)
    (k : list str) :
  parts p = dir ++ [l] -> l <> dotdot ->
  locate fs p = inr k ->
  exists d, namei fs [] dir = inr d /\ k = d ++ [l].
Proof.
  intros Hp Hl. unfold locate, path_name. rewrite Hp, removelast_last, last_last.
  destruct (namei fs [] dir) as [e|d]; [discriminate|].
  rewrite (eqb_str_neq _ _ Hl). destruct dir; intros [= <-]; eauto.
Qed.

Lemma split_on_in (sep : char) (s x : str) (c : char) :
  In x (split_on sep s) -> In c x -> In c s /\ c <> sep.
Proof.
  revert x. induction s as [|a s IH]; intros x; simpl.
  - now intros [<-|[]].
  - destruct (N.eqb_spec a sep) as [->|Ha].
    + intros [<-|Hx] Hc; [easy|]. destruct (IH x Hx Hc). auto.
    + destruct (split_on sep s) as [|l ls].
      * intros [<-|[]] [<-|[]]. auto.
      * intros [<-|Hx] Hc.
        -- destruct Hc as [<-|Hc]; [auto|].
           destruct (IH l (or_introl eq_refl) Hc). auto.
        -- destruct (IH x (or_intror Hx) Hc). auto.
Qed.

Lemma drop_while_in (p : char -> bool) (s : str) (c : char) :
  In c (drop_while p s) -> In c s.
Proof.
  induction s as [|a s IH]; simpl; [easy|]. destruct (p a); [auto|easy].
Qed.

Lemma last_in {A} (l : list A) (d : A) : l <> [] -> In (List.last l d) l.
Proof.
  induction l as [|a l IH]; [easy|]. intros _. destruct l as [|b l]; [now left|].
  right. apply IH. discriminate.
Qed.

Lemma last_app_nonempty {A} (l l' : list A) (d : A) :
  l' <> [] -> List.last (l ++ l') d = List.last l' d.
Proof.
  intros Hl'. induction l as [|a l IH]; [reflexivity|].
  cbn [app]. destruct (l ++ l') eqn:E; [|exact IH].
  apply app_eq_nil in E as [_ ?]. contradiction.
Qed.

(** No component of a parsed path has a slash in it. *)
Lemma parse_path_parts (s l : str) :
  In l (parts (parse_path s)) -> ~ In slash l.
Proof.
  unfold parse_path. cbn [parts]. intros Hl Hs.
  apply list_elem_of_In, list_elem_of_filter in Hl as [_ Hl].
  apply list_elem_of_In in Hl. now destruct (split_on_in slash s l slash Hl Hs).
Qed.

Lemma suffixes_chars (p : Path) (c : char) :
  In c (List.concat (suffixes p)) -> c = period \/ In c (path_name p).
Proof.
  unfold suffixes. destruct (startswith _ _); [easy|].
  intros (x & Hx & Hc)%in_concat. apply in_map_iff in Hx as (y & <- & Hy).
  destruct Hc as [<-|Hc]; [now left|]. right.
  assert (Hy' : In y (split_on period (drop_while (N.eqb period) (path_name p)))).
  { destruct (split_on _ _); [easy|now right]. }
  destruct (split_on_in _ _ _ _ Hy' Hc) as [Hin _].
  now apply drop_while_in in Hin.
Qed.

Section AuthorBlock.

Variable unicode_lower : char -> str.
Variable CWD : list str.

Lemma save_loc_name (p : Path) :
  parts p <> [] -> path_name (save_loc CWD p) = path_name p.
Proof.
  intros Hp. unfold save_loc, joinpath. destruct (is_absolute p); [reflexivity|].
  unfold path_name. cbn [parts cwd_path]. now apply last_app_nonempty.
Qed.

(** A name in the directory [dir] is saved under that name in the directory
    that [dir] is saved as. *)
Lemma save_loc_child (dir : Path) (l : str) :
  l <> [] -> ~ In slash l -> l <> [period] ->
  parts (save_loc CWD (joinpath dir (parse_path l))) = parts (save_loc CWD dir) ++ [l].
Proof.
  intros Hne Hslash Hdot. rewrite (parse_path_name l Hne Hslash Hdot).
  unfold save_loc, joinpath, is_absolute. cbn [anchor_of parts cwd_path].
  destruct (anchor_of dir); cbn [anchor_of parts]; now rewrite ?app_assoc.
Qed.

(** X22.  When [set_author_info] returns, the author had a name and a
    picture that is a readable file, and two things were written, in this
    order and nothing else: a copy of the picture, at the place the path of
    the copy names (or under the name of the picture inside it, when that
    place is a directory), and the info file, at the place its path names
    after the copy was made, with the name, the path of the copy as given
    (not resolved) and the biography (empty when there is none).  The block
    returned is the heading, its underline and the include line for the info
    file.  When the stem has no slash and does not begin with a period, the
    picture path has a name, and the place of the copy is not a directory,
    the two files are entries of the directory that [authors_dir] names,
    called by the stem with the suffixes of the picture and the stem with
    [.txt]. *)
Theorem author_block_writes_two_files (author : author_info) (authors_dir : str)
    (fs fs' : filesystem) (block : str) :
  set_author_info unicode_lower CWD author authors_dir fs = (fs', inr block) ->
  exists n p picture k1 k2,
    name author = Some n
    /\ profile_picture author = Some p
    /\ let source := save_loc CWD (parse_path p) in
       let stem := name_formatted unicode_lower author n in
       let suffix := List.concat (suffixes source) in
       let copy := joinpath (parse_path authors_dir) (parse_path (stem ++ suffix)) in
       let info := joinpath (parse_path authors_dir) (parse_path (stem ++ py ".txt")) in
       let fs1 := <[k1 := File picture]> fs in
       stat fs source = inr (File picture)
       /\ locate fs (if is_dir fs (save_loc CWD copy)
                     then joinpath (save_loc CWD copy) (parse_path (path_name source))
                     else save_loc CWD copy) = inr k1
       /\ locate fs1 (save_loc CWD info) = inr k2
       /\ fs' = <[k2 := File (Text (py ".. bio:: " ++ n ++ [nl]
                                    ++ py "   :photo: " ++ str_of_path copy ++ [nl]
                                    ++ [nl]
                                    ++ py "   " ++ match bio author with
                                                  | Some b => b
                                                  | None => []
                                                  end ++ [nl]
                                    ++ py "    "))]> fs1
       /\ block = [nl; nl] ++ rule ++ [nl]
                  ++ py "# About the author" ++ [nl]
                  ++ py "# ----------------" ++ [nl]
                  ++ py "# .. include:: " ++ str_of_path info
       /\ (~ In slash stem ->
           (exists c z, stem = c :: z /\ c <> period) ->
           parts (parse_path p) <> [] ->
           is_dir fs (save_loc CWD copy) = false ->
           exists d,
             namei fs [] (parts (save_loc CWD (parse_path authors_dir))) = inr d
             /\ k1 = d ++ [stem ++ suffix]
             /\ k2 = d ++ [stem ++ py ".txt"]).
Proof.
  unfold set_author_info. unfold bind at 1.
  destruct (name author) as [n|]; [|discriminate]. unfold ret at 1.
  unfold bind at 1. destruct (profile_picture author) as [p|]; [|discriminate].
  unfold ret at 1. unfold bind at 1.
  destruct (shutil_copy _ _ fs) as [fs1 [e|[]]] eqn:Hcopy; [discriminate|].
  apply shutil_copy_inv in Hcopy as (picture & k1 & Hstat & Hk1 & ->).
  unfold bind.
  destruct (write_file _ _ _) as [fs2 [e|[]]] eqn:Hwrite; [discriminate|].
  apply write_file_inv in Hwrite as (k2 & Hk2 & ->).
  unfold ret. intros [= <- <-].
  exists n, p, picture, k1, k2.
  split; [reflexivity|]. split; [reflexivity|].
  set (stem := name_formatted unicode_lower author n) in *.
  set (suffix := List.concat (suffixes (save_loc CWD (parse_path p)))) in *.
  set (fs1 := <[k1 := File picture]> fs) in *.
  split; [exact Hstat|]. split; [exact Hk1|]. split; [exact Hk2|].
  split; [reflexivity|]. split; [reflexivity|].
  intros Hslash (c & z & Hstem & Hc) Hp Hdir.
  rewrite Hdir in Hk1.
  assert (Hsuffix : ~ In slash suffix).
  { intros [H|H]%suffixes_chars; [discriminate|].
    rewrite (save_loc_name _ Hp) in H.
    revert H. apply (parse_path_parts p). now apply last_in. }
  assert (Hname : forall x, ~ In slash x ->
            stem ++ x <> [] /\ ~ In slash (stem ++ x) /\ stem ++ x <> [period]
            /\ stem ++ x <> dotdot).
  { intros x Hx. split; [|split; [|split]].
    - rewrite Hstem. discriminate.
    - intros [H|H]%in_app_iff; auto.
    - rewrite Hstem. intros [= ? _]. contradiction.
    - rewrite Hstem. intros [= ? _]. contradiction. }
  destruct (Hname suffix Hsuffix) as (Hn1 & Hs1 & Hd1 & Hdd1).
  assert (Htxt : ~ In slash (py ".txt")) by (vm_compute; intuition discriminate).
  destruct (Hname (py ".txt") Htxt) as (Hn2 & Hs2 & Hd2 & Hdd2).
  destruct (locate_in_directory fs _ _ _ k1 (save_loc_child _ _ Hn1 Hs1 Hd1) Hdd1 Hk1)
    as (d & Hd & ->).
  destruct (locate_in_directory fs1 _ _ _ k2 (save_loc_child _ _ Hn2 Hs2 Hd2) Hdd2 Hk2)
    as (d' & Hd' & ->).
  apply namei_before_write in Hd'. rewrite Hd in Hd'. injection Hd' as <-.
  exists d. auto.
Qed.

End AuthorBlock.

(** * The further properties on the sample inputs *)

(** A run is settled by its result: the file system it leaves is whatever
    it leaves. *)
Lemma run_result {A : Type} (m : M A) (fs : filesystem) (v : A) :
  snd (m fs) = inr v -> m fs = (fst (m fs), inr v).
Proof. destruct (m fs) as [fs' r]. cbn. now intros ->. Qed.

Lemma run_returns {A : Type} (m : M A) (fs : filesystem) :
  match snd (m fs) with inr _ => True | inl _ => False end ->
  exists v, m fs = (fst (m fs), inr v).
Proof. destruct (m fs) as [fs' [e|v]]; cbn; [tauto|eauto]. Qed.

Lemma plain_fragment_sample :
  post_process ascii_only (py "Plain text: no marker.") = py "Plain text: no marker.".
Proof.
  exact (proj2 (proj2 (proj2
           (post_process_without_markers ascii_only (py "Plain text: no marker.")
              eq_refl eq_refl eq_refl)))).
Defined.

Lemma tagged_container_sample :
  update_sphinx_tags ascii_only (py ".. container:: " ++ py "warning" ++ nl :: py "x")
  = py ".. " ++ py "warning" ++ py "::" ++ update_sphinx_tags ascii_only (nl :: py "x").
Proof.
  apply (tagged_container_is_renamed ascii_only (py "warning") (nl :: py "x"));
    [discriminate|reflexivity|reflexivity].
Defined.

Lemma duplicated_caption_sample :
  fix_image_alt_tag_as_text
    ((py ".. figure:: cat.png" ++ [nl])
     ++ py "   :alt: " ++ py "A cat" ++ [nl; nl] ++ py "   " ++ py "A cat" ++ [])
  = fix_image_alt_tag_as_text (py ".. figure:: cat.png" ++ [nl])
    ++ py "   :alt: " ++ py "A cat" ++ fix_image_alt_tag_as_text [].
Proof.
  apply (duplicated_caption_is_dropped (py ".. figure:: cat.png" ++ [nl])
           (py "A cat") (py "A cat") []);
    [|discriminate|discriminate|reflexivity|reflexivity|now left].
  right. exists (py ".. figure:: cat.png"). split; [reflexivity|].
  intros q H. apply (f_equal (@rev char)) in H. rewrite rev_app_distr in H.
  discriminate H.
Defined.

Lemma magic_command_sample :
  str_in (nl :: py "%")
    (py "r" ++ triple_quote ++ py "# T" ++ triple_quote
     ++ [nl; nl] ++ py "# %matplotlib inline" ++ [nl; nl] ++ py "print(1)")
  = false.
Proof.
  eapply (document_has_no_percent_line ascii_only verbatim (decode_as []) sample_cwd
           (py "nb") true (py "../demonstrations") (py "nb") sample_notebook
           sample_fs _).
  apply run_result. vm_compute. reflexivity.
Defined.

Lemma later_cells_sample :
  exists added, py "x" ++ [nl; nl] ++ py "print(1)" = py "x" ++ added.
Proof.
  apply (later_cells_only_append ascii_only verbatim (decode_as []) sample_cwd
           (py "nb") true (py "../demonstrations") (py "nb") 0
           [code_cell (py "print(1)") None []] (py "x") _ sample_fs sample_fs).
  reflexivity.
Defined.

Lemma header_sample :
  exists rest,
    py "r" ++ triple_quote ++ py "# T" ++ triple_quote
    ++ [nl; nl] ++ py "# %matplotlib inline" ++ [nl; nl] ++ py "print(1)"
    = py "r" ++ triple_quote ++ rest.
Proof.
  eapply (document_begins_with_header ascii_only verbatim (decode_as []) sample_cwd
           (py "nb") true (py "../demonstrations") (py "nb")
           (markdown_cell (py "# T"))
           [code_cell (py "%matplotlib inline") None [];
            code_cell (py "print(1)") (Some (py "c1"))
              [execute_result (Lines [py "1"])]]
           sample_fs _);
    [reflexivity|vm_compute; discriminate|apply run_result; vm_compute; reflexivity].
Defined.

Lemma cell_without_source_sample :
  convert_cell ascii_only verbatim (decode_as []) sample_cwd (py "nb") false
    (py "../demonstrations") (py "nb") 1
    {| cell_type := py "code"; source := Some (Lines []); id := None;
       outputs := Some [display_image (py "aGk=")] |} (py "x") sample_fs
  = (sample_fs, inr (py "x")).
Proof.
  apply cell_without_source_is_skipped. left. reflexivity.
Defined.

Lemma initial_validations_sample :
  initial_validations sample_notebook sample_fs
  = (sample_fs,
     inr [ markdown_cell (py "# T");
           code_cell (py "%matplotlib inline") None [];
           code_cell (py "print(1)") (Some (py "c1"))
             [execute_result (Lines [py "1"])] ]).
Proof.
  apply (proj2 (initial_validations_accept sample_notebook _ sample_fs sample_fs)).
  repeat split. eexists. eexists. split; reflexivity.
Defined.

Lemma conversion_without_images_sample :
  fst (convert_notebook_to_python ascii_only verbatim (decode_as []) sample_cwd
         (py "nb") false (py "../demonstrations") (py "nb") sample_notebook sample_fs)
  = sample_fs.
Proof.
  apply (conversion_without_images_keeps_fs ascii_only verbatim (decode_as [])
           sample_cwd (py "nb") false (py "../demonstrations") (py "nb")
           sample_notebook sample_fs _
           (snd (convert_notebook_to_python ascii_only verbatim (decode_as [])
                   sample_cwd (py "nb") false (py "../demonstrations") (py "nb")
                   sample_notebook sample_fs))).
  - intros cs c outs o Hcs Hc Houts Ho. left.
    cbn [cells sample_notebook] in Hcs. injection Hcs as <-.
    destruct Hc as [<-|[<-|[<-|[]]]]; try discriminate;
      cbn [outputs code_cell] in Houts; injection Houts as <-;
      try (destruct Ho as [<-|Ho]; [vm_compute; discriminate|]); destruct Ho.
  - apply surjective_pairing.
Defined.

Lemma live_conversion_sample :
  exists doc,
    forall nbname gallery assets fs,
      convert_notebook_to_python ascii_only verbatim (decode_as []) sample_cwd
        nbname true gallery assets sample_notebook fs = (fs, inr doc)
      /\ convert_notebook_to_python ascii_only verbatim (decode_as []) sample_cwd
           nbname true gallery assets
           {| cells := Some (map erase_outputs
                [ markdown_cell (py "# T");
                  code_cell (py "%matplotlib inline") None [];
                  code_cell (py "print(1)") (Some (py "c1"))
                    [execute_result (Lines [py "1"])] ]) |} fs
         = (fs, inr doc).
Proof.
  exact (live_conversion_is_pure ascii_only verbatim (decode_as []) sample_cwd
           sample_notebook _ _ eq_refl eq_refl).
Defined.

Lemma image_overwrite_sample :
  exists k,
    locate sample_fs_with_image
      (save_loc sample_cwd
         (image_file_path (py "nb") (py "../demonstrations") (py "nb") (py "c1") 1))
    = inr k.
Proof.
  destruct (image_overwrites_existing_file (decode_as [Byte.x68; Byte.x69]) sample_cwd
              (py "nb") (py "../demonstrations") (py "nb")
              (code_cell (py "plot()") (Some (py "c1")) []) (py "c1") 0 (py "aGk=")
              [Byte.x68; Byte.x69] (Bytes []) None None [] 0 sample_fs_with_image
              eq_refl eq_refl)
    as (k & Hk & _); [vm_compute; reflexivity|].
  exists k. exact Hk.
Defined.

Lemma author_without_picture_sample :
  set_author_info keep_case sample_cwd jane (py "../_static/authors") ∅
  = (∅, inl FileNotFoundError).
Proof.
  apply (proj2 (proj2 (author_block_fails_cleanly keep_case sample_cwd jane
                         (py "../_static/authors") ∅))
           (py "Jane Q. Doe") (py "jane.png") FileNotFoundError);
    reflexivity.
Defined.

Lemma output_block_sample :
  split_lines (generate_code_output_block (Some (Lines [py "1  "; py "2"])) false)
  = [ []; []; rule;
      py "# .. rst-class :: sphx-glr-script-out"; py "# ";
      py "# Out:"; py "# ";
      py "# .. code-block: none"; py "# " ]
    ++ map (fun line => py "#    " ++ rstrip line) (iter (Lines [py "1  "; py "2"])).
Proof.
  apply output_block_lines; [reflexivity|].
  repeat constructor; vm_compute; intuition discriminate.
Defined.

Lemma role_comment_sample :
  split_lines (generate_sphinx_role_comment (py "figure") (py "a/b.png")
                 [(py "align", py "center")])
  = (py "# .. " ++ py "figure" ++ py ":: " ++ py "a/b.png")
    :: map (fun a => py "#    :" ++ fst a ++ py ": " ++ snd a)
         [(py "align", py "center")].
Proof.
  apply role_comment_lines;
    [vm_compute; intuition discriminate|vm_compute; intuition discriminate|].
  repeat constructor; vm_compute; intuition discriminate.
Defined.

Lemma later_markdown_cell_sample :
  exists body,
    convert_cell ascii_only verbatim (decode_as []) sample_cwd (py "nb") false
      (py "../demonstrations") (py "nb") 1 (markdown_cell (py "## Section"))
      (py "x") sample_fs
    = (sample_fs, inr (py "x" ++ [nl; nl] ++ rule ++ [nl] ++ body))
    /\ split_lines body
       = map (fun line => py "# " ++ line)
           (split_lines (post_process ascii_only
                           (verbatim (cell_source (markdown_cell (py "## Section"))))))
    /\ join [nl] (map (skipn 2) (split_lines body))
       = post_process ascii_only
           (verbatim (cell_source (markdown_cell (py "## Section")))).
Proof.
  apply (later_markdown_cell_is_commented ascii_only verbatim (decode_as [])
           sample_cwd (py "nb") (py "../demonstrations") (py "nb") false 0
           (markdown_cell (py "## Section")) (py "x") sample_fs);
    [reflexivity|vm_compute; discriminate].
Defined.

Lemma stem_sample :
  Forall (fun c => (c < 128)%N /\ c <> 32%N /\ c <> 45%N /\ c <> 39%N
                   /\ ~ (65 <= c <= 90)%N)
         (name_formatted keep_case jane (py "Jane Q. Doe")).
Proof.
  apply stem_is_plain; [reflexivity|].
  repeat (apply List.Forall_cons; [reflexivity|]). apply List.Forall_nil.
Defined.

Lemma image_path_sample :
  image_file_path (py "nb") (py "../demonstrations") (py "nb") (py "c1") 1
  = {| anchor_of := anchor_of (parse_path (py "../demonstrations"));
       parts := parts (parse_path (py "../demonstrations")) ++ parts (parse_path (py "nb"))
                ++ [py "nb" ++ py "_" ++ py "c1" ++ py "_" ++ str_of_nat 1 ++ py ".png"] |}.
Proof.
  apply image_path_is_in_the_asset_folder;
    [vm_compute; intuition discriminate|vm_compute; intuition discriminate|
     reflexivity].
Defined.

Lemma main_sample :
  exists block doc fs1 fs2 k,
    set_author_info keep_case sample_cwd jane (py "../_static/authors") sample_fs
    = (fs1, inr block)
    /\ convert_notebook_to_python ascii_only verbatim (decode_as []) sample_cwd
         (stem (parse_path (py "nb.ipynb")))
         (startswith (py "tutorial_") (stem (parse_path (py "nb.ipynb"))) || true)
         (py "../demonstrations")
         (if startswith (py "tutorial_") (stem (parse_path (py "nb.ipynb")))
          then skipn 9 (stem (parse_path (py "nb.ipynb")))
          else stem (parse_path (py "nb.ipynb")))
         sample_notebook fs1
       = (fs2, inr doc)
    /\ locate fs2 (joinpath (save_loc sample_cwd (parse_path (py "../demonstrations")))
                            (parse_path (stem (parse_path (py "nb.ipynb")) ++ py ".py")))
       = inr k
    /\ fst (main ascii_only keep_case verbatim (decode_as []) sample_cwd
              (py "nb.ipynb") true (py "../demonstrations") (py "../_static/authors")
              sample_notebook jane sample_fs)
       = <[k := File (Text (doc ++ block))]> fs2.
Proof.
  apply (main_writes_document_last ascii_only keep_case verbatim (decode_as [])
           sample_cwd (py "nb.ipynb") true (py "../demonstrations")
           (py "../_static/authors") sample_notebook jane sample_fs).
  apply run_result. vm_compute. reflexivity.
Defined.

Lemma author_block_sample :
  exists picture d txt,
    stat sample_fs (save_loc sample_cwd (parse_path (py "jane.png")))
    = inr (File picture)
    /\ namei sample_fs []
         (parts (save_loc sample_cwd (parse_path (py "../_static/authors"))))
       = inr d
    /\ fst (set_author_info keep_case sample_cwd jane (py "../_static/authors") sample_fs)
       = <[d ++ [py "jane_q._doe.txt"] := File (Text txt)]>
           (<[d ++ [py "jane_q._doe.png"] := File picture]> sample_fs).
Proof.
  destruct (run_returns
              (set_author_info keep_case sample_cwd jane (py "../_static/authors"))
              sample_fs) as [block E]; [vm_compute; exact I|].
  destruct (author_block_writes_two_files _ _ _ _ _ _ _ E)
    as (n & p & picture & k1 & k2 & Hn & Hp & Hstat & _ & _ & Hfs & _ & Hplace).
  injection Hn as <-. injection Hp as <-.
  destruct Hplace as (d & Hd & -> & ->);
    [vm_compute; intuition discriminate
    |exists 106%N, (py "ane_q._doe"); split; [vm_compute; reflexivity|discriminate]
    |vm_compute; discriminate
    |vm_compute; reflexivity|].
  exists picture, d. eexists. split; [exact Hstat|]. split; [exact Hd|].
  rewrite Hfs. reflexivity.
Defined.
